(** * Ideal gas model: the simulation engine of [3d_version_updated.py]

    A shallow embedding of the class [GasSimulation3d]: its constructor,
    [SetParticles] and [Step].

    Numbers.  The program computes with IEEE double precision numbers
    (Python floats and numpy float64 arrays).  They are modelled as exact
    rationals extended with the three special values of IEEE arithmetic:
    rounding, overflow and the sign of zero are left out, the special values
    are kept because a numpy division by zero is not an exception: it
    yields an infinity or a NaN that stays in the arrays.  A Python level
    division by zero (both operands plain Python numbers) raises
    [ZeroDivisionError] instead, and is modelled as such; so is the
    [OverflowError] of a Python level power.  One rounding is kept, because
    it changes an integer: the cube root [n ** (1 / 3)] of a particle count
    that is a perfect cube (see [floor_cbrt]). *)

From Stdlib Require Import Reals Qreals QArith Qabs ZArith List Sorted Bool Lia Psatz.
Import ListNotations.
Open Scope Q_scope.

(** ** Array elements: rationals with infinities and NaN *)

Inductive fnum : Type :=
| Fin (q : Q)
| PInf
| NInf
| NaN.

(** Sign of an infinity built from a three-valued sign; [Eq] is the
    undefined form (0 * inf, 0 / 0). *)
Definition finf (s : comparison) : fnum :=
  match s with Gt => PInf | Lt => NInf | Eq => NaN end.

Definition fsgn (x : fnum) : comparison :=
  match x with
  | Fin q => q ?= 0
  | PInf => Gt
  | NInf => Lt
  | NaN => Eq
  end.

Definition sgn_mul (s t : comparison) : comparison :=
  match s, t with
  | Eq, _ | _, Eq => Eq
  | Gt, Gt | Lt, Lt => Gt
  | _, _ => Lt
  end.

Definition fneg (x : fnum) : fnum :=
  match x with
  | Fin q => Fin (- q)
  | PInf => NInf
  | NInf => PInf
  | NaN => NaN
  end.

Definition fadd (x y : fnum) : fnum :=
  match x, y with
  | Fin a, Fin b => Fin (a + b)
  | NaN, _ | _, NaN => NaN
  | PInf, NInf | NInf, PInf => NaN
  | PInf, _ | _, PInf => PInf
  | NInf, _ | _, NInf => NInf
  end.

Definition fsub (x y : fnum) : fnum := fadd x (fneg y).

Definition fmul (x y : fnum) : fnum :=
  match x, y with
  | Fin a, Fin b => Fin (a * b)
  | NaN, _ | _, NaN => NaN
  | _, _ => finf (sgn_mul (fsgn x) (fsgn y))
  end.

(** numpy division.  A finite value over zero is an infinity of the sign of
    the numerator, and 0 / 0 is NaN; no exception is raised.  Zero is taken
    as +0: the only divisor of the program that can be zero is a sum of
    squares. *)
Definition fdiv (x y : fnum) : fnum :=
  match x, y with
  | NaN, _ | _, NaN => NaN
  | Fin a, Fin b => if Qeq_bool b 0 then finf (a ?= 0) else Fin (a / b)
  | Fin _, _ => Fin 0
  | _, Fin b => finf (sgn_mul (fsgn x) (if Qle_bool 0 b then Gt else Lt))
  | _, _ => NaN
  end.

Definition Qltb (a b : Q) : bool :=
  match a ?= b with Lt => true | _ => false end.

(** IEEE [<]: false as soon as one side is NaN. *)
Definition flt (x y : fnum) : bool :=
  match x, y with
  | NaN, _ | _, NaN => false
  | Fin a, Fin b => Qltb a b
  | NInf, NInf | PInf, _ | _, NInf => false
  | _, _ => true
  end.

(** IEEE [==]: numeric equality, which no NaN satisfies. *)
Definition feq (x y : fnum) : Prop :=
  match x, y with
  | Fin a, Fin b => a == b
  | PInf, PInf | NInf, NInf => True
  | _, _ => False
  end.

(** [x <= y] on numbers; false as soon as one side is NaN. *)
Definition fle (x y : fnum) : Prop :=
  match x, y with
  | NaN, _ | _, NaN => False
  | Fin a, Fin b => a <= b
  | NInf, _ | _, PInf => True
  | _, _ => False
  end.

Definition is_fin (x : fnum) : Prop :=
  match x with Fin _ => True | _ => False end.

Definition is_nan (x : fnum) : Prop :=
  match x with NaN => True | _ => False end.

(** ** Rows of the arrays: three components *)

Record vec : Type := V3 { vx : fnum; vy : fnum; vz : fnum }.

Definition vzero : vec := V3 (Fin 0) (Fin 0) (Fin 0).

Definition vmap2 (f : fnum -> fnum -> fnum) (a b : vec) : vec :=
  V3 (f (vx a) (vx b)) (f (vy a) (vy b)) (f (vz a) (vz b)).

Definition vmap (f : fnum -> fnum) (a : vec) : vec :=
  V3 (f (vx a)) (f (vy a)) (f (vz a)).

Definition vadd : vec -> vec -> vec := vmap2 fadd.
Definition vsub : vec -> vec -> vec := vmap2 fsub.
(** [s * a], scalar on the left *)
Definition vscale (s : fnum) : vec -> vec := vmap (fmul s).
(** [a * s], scalar on the right *)
Definition vtimes (a : vec) (s : fnum) : vec := vmap (fun x => fmul x s) a.
(** [a / s] *)
Definition vdivs (a : vec) (s : fnum) : vec := vmap (fun x => fdiv x s) a.

(** [np.dot] of two rows *)
Definition dot (a b : vec) : fnum :=
  fadd (fadd (fmul (vx a) (vx b)) (fmul (vy a) (vy b))) (fmul (vz a) (vz b)).

Definition veq (a b : vec) : Prop :=
  feq (vx a) (vx b) /\ feq (vy a) (vy b) /\ feq (vz a) (vz b).

Definition vfin (a : vec) : Prop :=
  is_fin (vx a) /\ is_fin (vy a) /\ is_fin (vz a).

Definition vnan (a : vec) : Prop :=
  is_nan (vx a) /\ is_nan (vy a) /\ is_nan (vz a).

(** A row of finite rationals *)
Definition Vq (x y z : Q) : vec := V3 (Fin x) (Fin y) (Fin z).

(** ** Exceptions and outcomes *)

Inductive exn : Type :=
| ValueError
| ZeroDivisionError
| AttributeError
| TypeError
| IndexError
| OverflowError.

(** The two parallel arrays [pos] and [vel], one row per particle. *)
Definition ensemble : Type := (list vec * list vec)%type.

(** A call either returns, or raises; [Raised e built] records the ensemble
    arrays as they stand when the exception leaves the call, [None] when
    they were not allocated yet. *)
Inductive outcome (A : Type) : Type :=
| Done (a : A)
| Raised (e : exn) (built : option ensemble).
Arguments Done {A} a.
Arguments Raised {A} e built.

Definition bind {A B : Type} (m : outcome A) (k : A -> outcome B) : outcome B :=
  match m with
  | Done a => k a
  | Raised e b => Raised e b
  end.

Notation "x <- m ;; k" := (bind m (fun x => k))
  (at level 61, m at next level, right associativity).

(** ** The simulation object

    [b] and the matplotlib handles set by [SetGraphs] are never read by
    the engine and are left out.  [partBelonging] is [None] as long as the
    attribute has not been assigned. *)

Record Sim : Type := mkSim {
  partCount : Z;
  mass : Q;
  radius : Q;
  volume : Q;
  temp : Q;
  pos : list vec;
  vel : list vec;
  cubicParts1 : Z;
  cubicParts2 : Z;
  sideLength : Q;
  velNormalized : Q;
  partBelonging : option (list (list Q))
}.

Definition set_arrays (s : Sim) (p v : list vec) : Sim :=
  mkSim (partCount s) (mass s) (radius s) (volume s) (temp s) p v
        (cubicParts1 s) (cubicParts2 s) (sideLength s) (velNormalized s)
        (partBelonging s).

(** In-place write of row [i]; the indices the engine writes at are always
    rows it has just read. *)
Fixpoint upd {A : Type} (i : nat) (x : A) (l : list A) : list A :=
  match l, i with
  | [], _ => []
  | _ :: t, O => x :: t
  | h :: t, S j => h :: upd j x t
  end.

Definition row (l : list vec) (i : nat) : vec := nth i l vzero.

(** ** [Step] *)

Module Engine.

(** Line 141, [self.pos + self.vel * dt], row by row. *)
Fixpoint advance (dt : Q) (p v : list vec) : list vec :=
  match p, v with
  | x :: p', u :: v' => vadd x (vtimes u (Fin dt)) :: advance dt p' v'
  | _, _ => []
  end.

(** Square of the entry [(i, j)] of [squareform(pdist(self.pos))]; the
    diagonal of [squareform] is zero whatever the rows hold. *)
Definition sqdist (a b : vec) : fnum :=
  let d := vsub a b in
  fadd (fadd (fmul (vx d) (vx d)) (fmul (vy d) (vy d))) (fmul (vz d) (vz d)).

Definition distances2 (p : list vec) (i j : nat) : fnum :=
  if Nat.eqb i j then Fin 0 else sqdist (row p i) (row p j).

(** [sqrt d2 < c] for a squared distance [d2]: on a rational [d2 >= 0] it
    says [0 < c] and [d2 < c * c]; the root of an infinity is the infinity,
    and no comparison with a NaN holds. *)
Definition sqrt_lt (d2 : fnum) (c : Q) : bool :=
  match d2 with
  | Fin d => Qltb 0 c && Qltb d (c * c)
  | _ => false
  end.

(** Line 156: [np.where] lists the entries that satisfy the test in
    row-major order. *)
Definition where_close (r : Q) (p : list vec) : list (nat * nat) :=
  let n := length p in
  flat_map (fun i =>
    flat_map (fun j =>
      if sqrt_lt (distances2 p i j) (2 * r) then [(i, j)] else [])
      (seq 0 n))
    (seq 0 n).

(** Lines 157 to 159: keep [ind1 < ind2]. *)
Definition colliding_pairs (r : Q) (p : list vec) : list (nat * nat) :=
  filter (fun ij => Nat.ltb (fst ij) (snd ij)) (where_close r p).

(** Lines 163 to 166: the velocity change of one pair. *)
Definition vel_change (p1 p2 v1 v2 : vec) : vec :=
  let vec_normal := vsub p1 p2 in
  let vel_normal := vsub v1 v2 in
  vsub (vdivs (vscale (fmul (Fin 2) (dot vec_normal vel_normal)) vec_normal)
              (dot vec_normal vec_normal))
       vel_normal.

(** Lines 163 to 168: the new velocities of the pair. *)
Definition bounce (p1 p2 v1 v2 : vec) : vec * vec :=
  let vel_cm := vdivs (vadd v1 v2) (Fin 2) in
  let ch := vel_change p1 p2 v1 v2 in
  (vsub vel_cm (vdivs ch (Fin 2)), vadd vel_cm (vdivs ch (Fin 2))).

(** Lines 163 to 170 for the pair [(i1, i2)], on the arrays as they stand. *)
Definition resolve (dt : Q) (e : ensemble) (ij : nat * nat) : ensemble :=
  let '(p, v) := e in
  let '(i1, i2) := ij in
  let '(w1, w2) := bounce (row p i1) (row p i2) (row v i1) (row v i2) in
  let v := upd i1 w1 v in
  let v := upd i2 w2 v in
  let p := upd i1 (vadd (row p i1) (vtimes (row v i1) (Fin dt))) p in
  let p := upd i2 (vadd (row p i2) (vtimes (row v i2) (Fin dt))) p in
  (p, v).

(** Line 162: the loop over [zip(ind1, ind2)]. *)
Definition resolve_all (dt : Q) (pairs : list (nat * nat)) (e : ensemble)
  : ensemble :=
  fold_left (resolve dt) pairs e.

(** The two tests of one axis, lines 174 to 185 for axis 0: coordinate [x],
    velocity component [u]. *)
Definition wall_axis (r side : Q) (xu : fnum * fnum) : fnum * fnum :=
  let '(x, u) := xu in
  let '(x, u) :=
    if flt (fsub x (Fin r)) (Fin 0) then (Fin (r * 1.01), fneg u) else (x, u) in
  if flt (Fin side) (fadd x (Fin r))
  then (Fin (side - r * 1.01), fneg u) else (x, u).

(** Lines 174 to 197 for one particle. *)
Definition wall_row (r side : Q) (x u : vec) : vec * vec :=
  let '(x0, u0) := wall_axis r side (vx x, vx u) in
  let '(x1, u1) := wall_axis r side (vy x, vy u) in
  let '(x2, u2) := wall_axis r side (vz x, vz u) in
  (V3 x0 x1 x2, V3 u0 u1 u2).

(** Line 173: [for i in range(self.partCount)]; reading a row the arrays do
    not have raises [IndexError]. *)
Fixpoint wall_loop (r side : Q) (idx : list nat) (e : ensemble)
  : outcome ensemble :=
  match idx with
  | [] => Done e
  | i :: rest =>
      let '(p, v) := e in
      if Nat.ltb i (length p) then
        let '(x, u) := wall_row r side (row p i) (row v i) in
        wall_loop r side rest (upd i x p, upd i u v)
      else Raised IndexError (Some e)
  end.

(** [Step(dt)].  The two arrays have the same number of rows in every
    object the constructor allocates; with different numbers of rows the
    sum of line 141 raises [ValueError] (the broadcast of a single row
    apart, which is not modelled). *)
Definition Step (dt : Q) (s : Sim) : outcome Sim :=
  if negb (Nat.eqb (length (pos s)) (length (vel s)))
  then Raised ValueError (Some (pos s, vel s))
  else
    let p := advance dt (pos s) (vel s) in
    let pairs := colliding_pairs (radius s) p in
    let e := resolve_all dt pairs (p, vel s) in
    e' <- wall_loop (radius s) (sideLength s)
                    (seq 0 (Z.to_nat (partCount s))) e ;;
    Done (set_arrays s (fst e') (snd e')).

End Engine.

(** ** The constructor and [SetParticles] *)

Module Setup.

Open Scope Z_scope.

(** The exact integer cube root: the largest [r] with [r ^ 3 <= n], found
    bit by bit from the top. *)
Fixpoint icbrt_bits (k : nat) (n r : Z) : Z :=
  match k with
  | O => r
  | S k' =>
      let r' := r + 2 ^ Z.of_nat k' in
      icbrt_bits k' n (if r' ^ 3 <=? n then r' else r)
  end.

Definition icbrt (n : Z) : Z :=
  if n <=? 0 then 0 else icbrt_bits (S (Z.to_nat (Z.log2 n))) n 0.

(** [int(np.floor(n ** (1 / 3)))] of lines 27 and 57, as binary64 evaluates
    it.  The exponent [1 / 3] is rounded below one third, so that the power
    of a perfect cube [m ^ 3] falls short of [m]: for [m] up to 3 it still
    rounds to [m], from [m = 4] on it is the double just below [m]
    ([64 ** (1 / 3)] is 3.9999999999999996) and the floor is [m - 1].
    Everywhere else the floor is the exact one.  This holds for the counts
    below [count_bound]; arrays of that size are beyond any memory, and a
    failed allocation is not modelled. *)
Definition floor_cbrt (n : Z) : Z :=
  let r := icbrt n in
  if (r ^ 3 =? n) && (4 <=? r) then r - 1 else r.

Definition count_bound : Z := 10 ^ 14.

(** Decimal places kept by the two irrational operations below. *)
Definition root_scale : positive := (10 ^ 18)%positive.

(** [q ** (1 / 3)] for [q >= 0]: exact when [q] is the cube of a rational,
    rounded down to [root_scale] otherwise. *)
Definition Qcbrt (q : Q) : Q :=
  icbrt (Qnum q * Zpos (Qden q) ^ 2 * Zpos root_scale ^ 3)
  # (Qden q * root_scale).

(** [q ** (1 / 2)] for [q >= 0], in the same way. *)
Definition Qsqrt (q : Q) : Q :=
  Z.sqrt (Qnum q * Zpos (Qden q) * Zpos root_scale ^ 2)
  # (Qden q * root_scale).

Close Scope Z_scope.

(** A Python level power [x ** 3] raises [OverflowError] when its value
    rounds beyond the largest double. *)
Definition pow_overflows (q : Q) : bool :=
  Qle_bool (inject_Z (2 ^ 1024 - 2 ^ 970)) (Qabs q).

(** The operand of the square root of line 35. *)
Definition thermal_radicand (temp mass : Q) : Q :=
  3 * 1.87e-23 * temp / mass.

(** [np.linspace(a, b, num)], end point included. *)
Definition linspace (a b : Q) (num : Z) : list Q :=
  if (num <=? 0)%Z then []
  else if (num =? 1)%Z then [a]
  else
    let step := (b - a) / inject_Z (num - 1) in
    map (fun k => inject_Z (Z.of_nat k) * step + a) (seq 0 (Z.to_nat num)).

(** Python indexing: a negative index counts from the end. *)
Definition py_pos (len : nat) (k : Z) : option nat :=
  let n := Z.of_nat len in
  if ((0 <=? k) && (k <? n))%Z then Some (Z.to_nat k)
  else if ((- n <=? k) && (k <? 0))%Z then Some (Z.to_nat (n + k))
  else None.

Definition py_index {A : Type} (l : list A) (k : Z) : option A :=
  match py_pos (length l) k with
  | Some i => nth_error l i
  | None => None
  end.

Definition table : Type := list (list Q).

(** [t[k, c] = x] *)
Definition set_cell (t : table) (k : Z) (c : nat) (x : Q) : option table :=
  match py_pos (length t) k with
  | Some i =>
      match nth_error t i with
      | Some r => if Nat.ltb c (length r) then Some (upd i (upd c x r) t)
                  else None
      | None => None
      end
  | None => None
  end.

Definition lookup (built : option ensemble) (dists : list Q) (k : Z)
  : outcome Q :=
  match py_index dists k with
  | Some d => Done d
  | None => Raised IndexError built
  end.

(** Python [%] and [//] on integers: floored, and an exception on zero. *)
Definition pmod (built : option ensemble) (a b : Z) : outcome Z :=
  if (b =? 0)%Z then Raised ZeroDivisionError built else Done (a mod b)%Z.

Definition pfloordiv (built : option ensemble) (a b : Z) : outcome Z :=
  if (b =? 0)%Z then Raised ZeroDivisionError built else Done (a / b)%Z.

(** Lines 79 to 83 for particle [i]: [p] is [self.pos] and [tbl] the
    attribute [partBelonging], absent when [None].  [rnd] is the sequence of
    the draws of [random.rand], three for each particle. *)
Definition place (s : Sim) (dists : list Q) (rnd : nat -> Q) (i : nat)
  (p : list vec) (tbl : option table) : outcome (list vec * option table) :=
  let built := Some (p, vel s) in
  temp <- pmod built (Z.of_nat i) (cubicParts1 s ^ 3) ;;
  kx <- pmod built temp (cubicParts1 s) ;;
  x <- lookup built dists kx ;;
  m <- pmod built temp (cubicParts2 s) ;;
  ky <- pfloordiv built m (cubicParts1 s) ;;
  y <- lookup built dists ky ;;
  kz <- pfloordiv built temp (cubicParts2 s) ;;
  z <- lookup built dists kz ;;
  let jitter k := rnd (3 * i + k)%nat * (radius s * 0.5) in
  let p' := upd i (Vq (x + jitter 0%nat) (y + jitter 1%nat) (z + jitter 2%nat)) p in
  match tbl with
  | None => Raised AttributeError (Some (p', vel s))
  | Some t =>
      match set_cell t temp 6 (inject_Z (Z.of_nat i)) with
      | Some t' => Done (p', Some t')
      | None => Raised IndexError (Some (p', vel s))
      end
  end.

(** Line 78: [for i in range(self.partCount)]. *)
Fixpoint place_loop (s : Sim) (dists : list Q) (rnd : nat -> Q)
  (idx : list nat) (p : list vec) (tbl : option table)
  : outcome (list vec * option table) :=
  match idx with
  | [] => Done (p, tbl)
  | i :: rest =>
      pt <- place s dists rnd i p tbl ;;
      place_loop s dists rnd rest (fst pt) (snd pt)
  end.

(** Line 92: [random.uniform(-1, 1, (partCount, 3)) * velNormalized]; [uni]
    is the sequence of the draws. *)
Definition draw_velocities (n : nat) (uni : nat -> Q) (scale : Q) : list vec :=
  map (fun i => Vq (uni (3 * i)%nat * scale) (uni (3 * i + 1)%nat * scale)
                   (uni (3 * i + 2)%nat * scale))
      (seq 0 n).

(** [SetParticles].  With a negative [partCount] the cube root of line 57
    is a complex number, which [np.floor] refuses. *)
Definition SetParticles (s : Sim) (rnd uni : nat -> Q) : outcome Sim :=
  if (partCount s <? 0)%Z then Raised TypeError (Some (pos s, vel s))
  else
    let dists := linspace (radius s * 5) (sideLength s - radius s * 5)
                          (floor_cbrt (partCount s)) in
    let n := Z.to_nat (partCount s) in
    pt <- place_loop s dists rnd (seq 0 n) (repeat vzero n) (partBelonging s) ;;
    Done (mkSim (partCount s) (mass s) (radius s) (volume s) (temp s)
                (fst pt) (draw_velocities n uni (velNormalized s))
                (cubicParts1 s) (cubicParts2 s) (sideLength s)
                (velNormalized s) (snd pt)).

(** [__init__], lines 19 to 39.  Line 24 refuses a negative number of rows;
    line 33 raises the radius to the power 3 for [b], which is not kept;
    line 35 divides two Python numbers; [SetParticles] runs at line 36,
    before [partBelonging] is assigned; [SetGraphs] only draws; and the call
    [np.zeros(self.cubicParts1 ** 3, 7)] of line 39 passes 7 where numpy
    takes the element type, which raises [TypeError], so that lines 41 to
    45 are never reached. *)
Definition __init__ (particlesCount : Z) (mass effectiveRadius volume T : Q)
  (rnd uni : nat -> Q) : outcome Sim :=
  if (particlesCount <? 0)%Z then Raised ValueError None
  else
    let zeros := repeat vzero (Z.to_nat particlesCount) in
    let c1 := floor_cbrt particlesCount in
    if pow_overflows (effectiveRadius * effectiveRadius * effectiveRadius)
    then Raised OverflowError (Some (zeros, zeros))
    else if Qeq_bool mass 0 then Raised ZeroDivisionError (Some (zeros, zeros))
    else
      let s := mkSim particlesCount mass effectiveRadius volume T zeros zeros
                     c1 (c1 ^ 2) (Qcbrt volume)
                     (Qsqrt (thermal_radicand T mass)) None in
      s' <- SetParticles s rnd uni ;;
      Raised TypeError (Some (pos s', vel s')).

(** Lines 41 to 45, on the table of [cubicParts1 ** 3] rows of seven zeros
    that line 39 means to allocate: row [i] gets [cellLength * i] and
    [cellLength * (i + 1)] on each of the three axes. *)
Definition cell_row (cellLength : Q) (i : nat) : list Q :=
  let lo := cellLength * inject_Z (Z.of_nat i) in
  let hi := cellLength * inject_Z (Z.of_nat i + 1) in
  [lo; hi; lo; hi; lo; hi; 0].

(** [None] is the [ZeroDivisionError] of line 41 when [cubicParts1] is 0. *)
Definition cell_table (sideLength : Q) (cubicParts1 : Z) : option table :=
  if (cubicParts1 =? 0)%Z then None
  else
    let cellLength := sideLength / inject_Z cubicParts1 in
    Some (map (cell_row cellLength) (seq 0 (Z.to_nat (cubicParts1 ^ 3)))).

End Setup.

(** ** Vocabulary of the statements *)

(** [|a|^2] *)
Definition normsq (a : vec) : fnum := dot a a.

(** Pairs of indices in the order of a row-major traversal. *)
Definition lex_lt (a b : nat * nat) : Prop :=
  (fst a < fst b)%nat \/ (fst a = fst b /\ (snd a < snd b)%nat).

(** The part of [w] along [n]: [(dot(n, w) / dot(n, n)) * n]. *)
Definition along (n w : vec) : vec := vscale (fdiv (dot n w) (dot n n)) n.

(** A coordinate is within the walls, a radius away from each. *)
Definition contained (r side : Q) (x : fnum) : Prop :=
  fle (Fin r) x /\ fle x (Fin (side - r)).

Definition vcontained (r side : Q) (a : vec) : Prop :=
  contained r side (vx a) /\ contained r side (vy a) /\ contained r side (vz a).

(** The shape every allocation of the constructor gives the arrays:
    [partCount] rows in each. *)
Definition well_shaped (s : Sim) : Prop :=
  partCount s = Z.of_nat (length (pos s)) /\ length (vel s) = length (pos s).

(** A coordinate the wall phase may leave: a number within the walls, or a
    NaN it found. *)
Definition contained_or_nan (r side : Q) (a : vec) : Prop :=
  forall c, In c [vx a; vy a; vz a] -> is_nan c \/ contained r side c.

(** The arrays when the collision loop of [Step(dt)] starts. *)
Definition after_flight (dt : Q) (s : Sim) : ensemble :=
  (Engine.advance dt (pos s) (vel s), vel s).

(** A call fails before any ensemble state is built. *)
Definition fails_fast {A : Type} (o : outcome A) : Prop :=
  exists e, o = Raised e None.

(** A call that, when it raises, has the arrays allocated. *)
Definition built_some {A : Type} (o : outcome A) : Prop :=
  forall e, o <> Raised e None.

(** Coordinate number [k] of [np.linspace(a, b, m)]. *)
Definition lattice (a b : Q) (m k : Z) : Q :=
  if (m =? 1)%Z then a else inject_Z k * ((b - a) / inject_Z (m - 1)) + a.

(** The position lines 80 to 82 give particle [i] when [i] is below
    [cubicParts1 ** 3], so that [temp] is [i]. *)
Definition placed (s : Sim) (rnd : nat -> Q) (i : nat) : vec :=
  let m := cubicParts1 s in
  let d := lattice (radius s * 5) (sideLength s - radius s * 5) m in
  let t := Z.of_nat i in
  let jitter k := rnd (3 * i + k)%nat * (radius s * 0.5) in
  Vq (d (t mod m)%Z + jitter 0%nat)
     (d ((t mod m ^ 2) / m)%Z + jitter 1%nat)
     (d (t / m ^ 2)%Z + jitter 2%nat).

(** The grid cell line 79 gives particle [i]: [i % cubicParts1 ** 3]. *)
Definition cell_of (s : Sim) (i : nat) : Z :=
  (Z.of_nat i mod cubicParts1 s ^ 3)%Z.

(** The jitter of particle [i] on axis [k]. *)
Definition jitter (s : Sim) (rnd : nat -> Q) (i k : nat) : Q :=
  rnd (3 * i + k)%nat * (radius s * 0.5).

(** The position lines 80 to 82 give particle [i]: the lattice point of its
    cell plus its jitter. *)
Definition spawn (s : Sim) (rnd : nat -> Q) (i : nat) : vec :=
  let m := cubicParts1 s in
  let d := lattice (radius s * 5) (sideLength s - radius s * 5) m in
  let t := cell_of s i in
  Vq (d (t mod m)%Z + jitter s rnd i 0)
     (d ((t mod m ^ 2) / m)%Z + jitter s rnd i 1)
     (d (t / m ^ 2)%Z + jitter s rnd i 2).

(** Draws of [random.uniform(-1, 1)]. *)
Definition signed_draws (uni : nat -> Q) : Prop := forall k, -1 <= uni k <= 1.

(** A component no larger than [c] in absolute value. *)
Definition within (c : Q) (x : fnum) : Prop :=
  match x with Fin q => - c <= q <= c | _ => False end.

(** A table with at least [n] rows of at least seven columns, as line 39
    means to allocate for [n = cubicParts1 ** 3]. *)
Definition table_ok (n : nat) (t : Setup.table) : Prop :=
  (n <= length t)%nat /\ Forall (fun r => (6 < length r)%nat) t.

(** The interval the initial coordinates fall in: a lattice point of
    [[5 * radius, sideLength - 5 * radius]] plus a jitter of at most
    [0.5 * radius]. *)
Definition spawn_range (s : Sim) (x : fnum) : Prop :=
  match x with
  | Fin q => radius s * 5 <= q <= sideLength s - radius s * 5 + radius s * 0.5
  | _ => False
  end.

Definition vspawn_range (s : Sim) (a : vec) : Prop :=
  spawn_range s (vx a) /\ spawn_range s (vy a) /\ spawn_range s (vz a).

(** The interval of the specification, [[5 * radius, sideLength - 5 * radius]]. *)
Definition lattice_range (s : Sim) (x : fnum) : Prop :=
  fle (Fin (radius s * 5)) x /\ fle x (Fin (sideLength s - radius s * 5)).

(** Draws of [random.rand]: in [[0, 1)]. *)
Definition unit_draws (rnd : nat -> Q) : Prop := forall k, 0 <= rnd k < 1.

(** The Boltzmann constant, in J/K. *)
Definition k_B : Q := 1.380649e-23.

(** ** Sample states *)

Module Samples.

(** Two particles that the free flight of [Step(1)] brings to the same
    point (5, 5, 5) of a chamber of side 10. *)
Definition coincident : Sim :=
  mkSim 2 1 1 1000 300
        [Vq 4 5 5; Vq 5 5 5]
        [Vq 1 0 0; Vq 0 0 0]
        1 1 10 1 None.

(** Three particles; after the free flight of [Step(1)] particle 0 is at
    (5, 5, 5), within two radii of particle 1 at (6.5, 5, 5) and of
    particle 2 at (3.5, 5, 5), which are three units apart. *)
Definition chain : Sim :=
  mkSim 3 1 1 1000 300
        [Vq 4 4 5; Vq (13 # 2) 5 5; Vq (7 # 2) 5 5]
        [Vq 1 1 0; Vq 0 0 0; Vq 0 0 0]
        1 1 10 1 None.

(** One particle in the middle of the chamber, moving along x. *)
Definition single : Sim :=
  mkSim 1 1 1 1000 300 [Vq 5 5 5] [Vq 1 0 0] 1 1 10 1 None.

(** Eight particles of radius 1 in a chamber of side 20 (volume 8000), with
    the table of 8 rows of 7 zeros in place. *)
Definition cube8 : Sim :=
  mkSim 8 1 1 8000 300 (repeat vzero 8) (repeat vzero 8) 2 4 20 1
        (Some (repeat (repeat 0 7) 8)).

(** The same in a chamber of side 10.25 (volume 10.25 ** 3), where the two
    lattice coordinates 5 and 5.25 are closer than the largest jitter.
    All these numbers are doubles. *)
Definition cube8_tight : Sim :=
  mkSim 8 1 1 (68921 # 64) 300 (repeat vzero 8) (repeat vzero 8) 2 4
        (41 # 4) 1 (Some (repeat (repeat 0 7) 8)).

(** Sixty-four particles of radius 1 in a chamber of side 40, as the
    constructor holds them: the cube root of lines 27 and 57 is 3, the grid
    has 27 cells, and so has the table. *)
Definition sixty_four : Sim :=
  mkSim 64 1 1 64000 300 [] [] 3 9 40 1 (Some (repeat (repeat 0 7) 27)).

(** The rows of a pair in contact, centers 1.5 apart along x: the first
    particle moves obliquely, the second is at rest. *)
Definition pA : vec := Vq 5 5 5.
Definition pB : vec := Vq (13 # 2) 5 5.
Definition vA : vec := Vq 1 1 0.
Definition vB : vec := Vq 0 0 0.

(** A direction across the line of the two centers. *)
Definition across : vec := Vq 0 1 0.

(** Four particles: 0 and 1 in contact, 2 and 3 in contact, far from the
    first two. *)
Definition two_pairs : ensemble :=
  ([Vq 2 2 2; Vq 3 2 2; Vq 7 7 7; Vq 7 8 7],
   [Vq 1 0 0; Vq 0 1 0; Vq 0 1 1; Vq 0 0 0]).

(** [single] with a particle count of 3 for its one row. *)
Definition short_arrays : Sim :=
  mkSim 3 1 1 1000 300 [Vq 5 5 5] [Vq 1 0 0] 1 1 10 1 None.

(** An object of no particles that has no table. *)
Definition nobody : Sim :=
  mkSim 0 1 1 8000 300 [] [] 0 0 20 1 None.

(** Draws that are all one half. *)
Definition half_draws : nat -> Q := fun _ => 1 # 2.

(** Draws that are zero but for the first, 0.5. *)
Definition first_draw : nat -> Q :=
  fun k => match k with O => 1 # 2 | _ => 0 end.

(** Draws that are all zero. *)
Definition zero_draws : nat -> Q := fun _ => 0.

End Samples.
(** * Properties *)

Import Engine Setup Samples.

Lemma Qltb_lt (a b : Q) : Qltb a b = true <-> a < b.
Proof.
  unfold Qltb. rewrite Qlt_alt. destruct (a ?= b); split; congruence.
Qed.

Lemma Qltb_ge (a b : Q) : Qltb a b = false <-> b <= a.
Proof.
  pose proof (Qltb_lt a b) as H. destruct (Qltb a b).
  - split; [discriminate|]. intros L. apply Qle_not_lt in L. tauto.
  - split; [|reflexivity]. intros _. apply Qnot_lt_le. intros L.
    apply H in L. discriminate.
Qed.

Lemma sumsq_zero (a b c : Q) :
  a * a + b * b + c * c == 0 -> a == 0 /\ b == 0 /\ c == 0.
Proof.
  intros H. repeat split; nra.
Qed.

Lemma fdiv_fin (a b : Q) : ~ b == 0 -> fdiv (Fin a) (Fin b) = Fin (a / b).
Proof.
  intros H. simpl. destruct (Qeq_bool b 0) eqn:E; [|reflexivity].
  apply Qeq_bool_iff in E. contradiction.
Qed.

Lemma fdiv_two (a : Q) : fdiv (Fin a) (Fin 2) = Fin (a / 2).
Proof. reflexivity. Qed.

Lemma vfin_inv (a : vec) : vfin a -> exists x y z, a = V3 (Fin x) (Fin y) (Fin z).
Proof.
  destruct a as [[x| | |] [y| | |] [z| | |]]; unfold vfin; simpl; intuition.
  now exists x, y, z.
Qed.

Ltac fin_vec H :=
  let x := fresh "x" in let y := fresh "y" in let z := fresh "z" in
  destruct (vfin_inv _ H) as (x & y & z & ->); clear H.


(** ** Lists updated in place *)

Lemma upd_length {A : Type} (i : nat) (x : A) (l : list A) :
  length (upd i x l) = length l.
Proof.
  revert i; induction l as [|h t IH]; intros [|i]; simpl; auto.
Qed.

Lemma row_upd_same (i : nat) (x : vec) (l : list vec) :
  (i < length l)%nat -> row (upd i x l) i = x.
Proof.
  unfold row. revert i; induction l as [|h t IH]; intros [|i] H; simpl in *;
    try lia; auto. apply IH. lia.
Qed.

Lemma row_upd_other (i j : nat) (x : vec) (l : list vec) :
  i <> j -> row (upd i x l) j = row l j.
Proof.
  unfold row. revert i j; induction l as [|h t IH]; intros [|i] [|j] H;
    simpl; auto; try congruence.
Qed.

(** ** One collision *)

Section Bounce.

Variables p1 p2 v1 v2 : vec.
Hypothesis Fp1 : vfin p1.
Hypothesis Fp2 : vfin p2.
Hypothesis Fv1 : vfin v1.
Hypothesis Fv2 : vfin v2.
Hypothesis normal_nonzero : ~ veq (vsub p1 p2) vzero.

Lemma bounce_momentum :
  veq (vadd (fst (bounce p1 p2 v1 v2)) (snd (bounce p1 p2 v1 v2)))
      (vadd v1 v2).
Proof.
  fin_vec Fp1. fin_vec Fp2. fin_vec Fv1. fin_vec Fv2.
  assert (D : ~ (x + - x0) * (x + - x0) + (y + - y0) * (y + - y0)
              + (z + - z0) * (z + - z0) == 0).
  { intros H. apply sumsq_zero in H. apply normal_nonzero.
    unfold veq; simpl. lra. }
  unfold bounce, vel_change, veq, vadd, vsub, vdivs, vscale, vmap, vmap2, dot.
  cbn [vx vy vz fsub fadd fneg fmul fst snd].
  rewrite !(fdiv_fin _ _ D).
  cbn [vx vy vz fsub fadd fneg fmul fst snd]. rewrite !fdiv_two.
  cbn [feq fadd fsub fneg].
  repeat split; field; exact D.
Qed.

Lemma bounce_energy :
  feq (fadd (normsq (fst (bounce p1 p2 v1 v2)))
            (normsq (snd (bounce p1 p2 v1 v2))))
      (fadd (normsq v1) (normsq v2)).
Proof.
  fin_vec Fp1. fin_vec Fp2. fin_vec Fv1. fin_vec Fv2.
  assert (D : ~ (x + - x0) * (x + - x0) + (y + - y0) * (y + - y0)
              + (z + - z0) * (z + - z0) == 0).
  { intros H. apply sumsq_zero in H. apply normal_nonzero.
    unfold veq; simpl. lra. }
  unfold normsq, bounce, vel_change, veq, vadd, vsub, vdivs, vscale, vmap,
    vmap2, dot.
  cbn [vx vy vz fsub fadd fneg fmul fst snd].
  rewrite !(fdiv_fin _ _ D).
  cbn [vx vy vz fsub fadd fneg fmul fst snd]. rewrite !fdiv_two.
  cbn [feq fadd fsub fneg fmul].
  field; exact D.
Qed.

End Bounce.

(** The velocities [resolve] leaves in the two rows of the pair are those
    of [bounce] on the rows it found. *)
Lemma resolve_vel (dt : Q) (p v : list vec) (i1 i2 : nat) :
  (i1 < i2 < length v)%nat ->
  let b := bounce (row p i1) (row p i2) (row v i1) (row v i2) in
  row (snd (resolve dt (p, v) (i1, i2))) i1 = fst b /\
  row (snd (resolve dt (p, v) (i1, i2))) i2 = snd b.
Proof.
  intros H b. unfold resolve. fold b. destruct b as [w1 w2]. cbn [fst snd].
  split.
  - rewrite row_upd_other by lia. apply row_upd_same. lia.
  - apply row_upd_same. rewrite upd_length. lia.
Qed.

(** The pairs the detection selects: [i < j], both rows of the array. *)
Lemma colliding_pairs_range (r : Q) (p : list vec) (i j : nat) :
  In (i, j) (colliding_pairs r p) -> (i < j < length p)%nat.
Proof.
  unfold colliding_pairs, where_close. rewrite filter_In. cbn [fst snd].
  intros [H L]. apply Nat.ltb_lt in L. split; [exact L|].
  apply in_flat_map in H. destruct H as (a & _ & H).
  apply in_flat_map in H. destruct H as (b & Hb & H).
  apply in_seq in Hb.
  destruct (sqrt_lt _ _); simpl in H; [|tauto].
  destruct H as [H|[]]. inversion H; subst. lia.
Qed.

(** X1.  Momentum of a pair that is not degenerate (the statement of the
    specification, away from coincident centers). *)
Lemma resolve_conserves_momentum (dt : Q) (p v : list vec) (i1 i2 : nat) :
  (i1 < i2 < length v)%nat ->
  vfin (row p i1) -> vfin (row p i2) -> vfin (row v i1) -> vfin (row v i2) ->
  ~ veq (vsub (row p i1) (row p i2)) vzero ->
  let v' := snd (resolve dt (p, v) (i1, i2)) in
  veq (vadd (row v' i1) (row v' i2)) (vadd (row v i1) (row v i2)).
Proof.
  intros H F1 F2 F3 F4 N v'. subst v'.
  destruct (resolve_vel dt p v i1 i2 H) as [-> ->].
  now apply bounce_momentum.
Qed.

(** C2.  For a pair [(i1, i2)] resolved inside [Step] (two different rows of
    the arrays, holding numbers) whose normal vector [pos_i - pos_j] is not
    zero, the resolution leaves the sum of the squared speeds unchanged:
    [|v_i'|^2 + |v_j'|^2 = |v_i|^2 + |v_j|^2]. *)
Theorem resolve_conserves_energy (dt : Q) (p v : list vec) (i1 i2 : nat) :
  (i1 < i2 < length v)%nat ->
  vfin (row p i1) -> vfin (row p i2) -> vfin (row v i1) -> vfin (row v i2) ->
  ~ veq (vsub (row p i1) (row p i2)) vzero ->
  let v' := snd (resolve dt (p, v) (i1, i2)) in
  feq (fadd (normsq (row v' i1)) (normsq (row v' i2)))
      (fadd (normsq (row v i1)) (normsq (row v i2))).
Proof.
  intros H F1 F2 F3 F4 N v'. subst v'.
  destruct (resolve_vel dt p v i1 i2 H) as [-> ->].
  now apply bounce_energy.
Qed.

Lemma resolve_conserves_energy_witness :
  let p := [Vq 5 5 5; Vq (13 # 2) 5 5] in
  let v := [Vq 1 1 0; Vq 0 0 0] in
  ~ veq (vsub (row p 0) (row p 1)) vzero /\
  feq (fadd (normsq (row (snd (resolve 1 (p, v) (0, 1)%nat)) 0))
            (normsq (row (snd (resolve 1 (p, v) (0, 1)%nat)) 1)))
      (fadd (normsq (row v 0)) (normsq (row v 1))).
Proof.
  intros p v.
  assert (N : ~ veq (vsub (row p 0) (row p 1)) vzero).
  { unfold veq; simpl. intros (H & _). discriminate H. }
  split; [exact N|].
  apply (resolve_conserves_energy 1 p v 0 1); simpl; auto; try lia;
    unfold vfin; simpl; auto.
Defined.

(** ** The degenerate pair *)


(** C1, at a pair with coincident centers.  In [coincident] the free flight
    of [Step(1)] puts both particles at (5, 5, 5); the pair (0, 1) is
    selected, its resolution makes both velocities NaN, and their sum is not
    the sum (1, 0, 0) of the velocities before. *)
Theorem coincident_pair_loses_momentum :
  let e := after_flight 1 coincident in
  let e' := resolve_all 1 (colliding_pairs (radius coincident) (fst e)) e in
  colliding_pairs (radius coincident) (fst e) = [(0, 1)%nat] /\
  veq (row (fst e) 0) (row (fst e) 1) /\
  veq (vadd (row (snd e) 0) (row (snd e) 1)) (Vq 1 0 0) /\
  vnan (row (snd e') 0) /\ vnan (row (snd e') 1) /\
  ~ veq (vadd (row (snd e') 0) (row (snd e') 1))
        (vadd (row (snd e) 0) (row (snd e) 1)).
Proof.
  vm_compute. repeat split; auto; try reflexivity. tauto.
Qed.

(** C4.  On the same state the divisor [dot(vec_normal, vec_normal)] of
    line 166 is zero and the division is carried out: [vel_change] is NaN in
    every component, and [Step(1)] returns with the positions and the
    velocities of both particles NaN; a second [Step(1)] leaves them NaN. *)
Theorem coincident_pair_divides_by_zero :
  let e := after_flight 1 coincident in
  let n := vsub (row (fst e) 0) (row (fst e) 1) in
  In (0, 1)%nat (colliding_pairs (radius coincident) (fst e)) /\
  veq n vzero /\
  feq (dot n n) (Fin 0) /\
  vnan (vel_change (row (fst e) 0) (row (fst e) 1)
                   (row (snd e) 0) (row (snd e) 1)) /\
  exists s' s'',
    Step 1 coincident = Done s' /\
    Forall vnan (pos s') /\ Forall vnan (vel s') /\
    Step 1 s' = Done s'' /\
    Forall vnan (pos s'') /\ Forall vnan (vel s'').
Proof.
  cbv zeta. split; [vm_compute; auto|].
  split; [vm_compute; repeat split; reflexivity|].
  split; [vm_compute; reflexivity|].
  split; [vm_compute; auto|].
  eexists; eexists.
  split; [vm_compute; reflexivity|].
  split; [repeat constructor|].
  split; [repeat constructor|].
  split; [vm_compute; reflexivity|].
  split; repeat constructor.
Qed.

(** ** The order of the collision loop *)


(** ** Shapes through [Step] *)

Lemma advance_length (dt : Q) (p v : list vec) :
  length v = length p -> length (advance dt p v) = length p.
Proof.
  revert v; induction p as [|x p IH]; intros [|u v] H; simpl in *;
    try discriminate; auto.
Qed.

Lemma resolve_lengths (dt : Q) (e : ensemble) (ij : nat * nat) :
  length (fst (resolve dt e ij)) = length (fst e) /\
  length (snd (resolve dt e ij)) = length (snd e).
Proof.
  destruct e as [p v], ij as [i1 i2]. unfold resolve.
  destruct (bounce _ _ _ _) as [w1 w2]. cbn [fst snd].
  now rewrite !upd_length.
Qed.

Lemma resolve_all_lengths (dt : Q) (pairs : list (nat * nat)) (e : ensemble) :
  length (fst (resolve_all dt pairs e)) = length (fst e) /\
  length (snd (resolve_all dt pairs e)) = length (snd e).
Proof.
  unfold resolve_all. revert e; induction pairs as [|pr rest IH]; intros e.
  - simpl; auto.
  - simpl. destruct (IH (resolve dt e pr)) as [-> ->]. apply resolve_lengths.
Qed.

(** The wall loop over the rows [a .. a + k - 1]: it returns, has rewritten
    exactly those rows of the positions, each from what it held, and has
    kept the shapes. *)
Lemma wall_loop_seq (r side : Q) (k : nat) :
  forall (a : nat) (p v : list vec),
    (a + k <= length p)%nat ->
    exists p' v',
      wall_loop r side (seq a k) (p, v) = Done (p', v') /\
      length p' = length p /\ length v' = length v /\
      (forall i, (a <= i < a + k)%nat ->
                 row p' i = fst (wall_row r side (row p i) (row v i))) /\
      (forall i, ~ (a <= i < a + k)%nat ->
                 row p' i = row p i /\ row v' i = row v i).
Proof.
  induction k as [|k IH]; intros a p v H.
  - exists p, v. simpl. repeat split; auto. intros i Hi. lia.
  - cbn [seq wall_loop].
    assert (L : Nat.ltb a (length p) = true) by (apply Nat.ltb_lt; lia).
    rewrite L.
    destruct (wall_row r side (row p a) (row v a)) as [x u] eqn:W.
    destruct (IH (S a) (upd a x p) (upd a u v)) as (p' & v' & E & Lp & Lv & In_ & Out).
    { rewrite upd_length. lia. }
    exists p', v'. rewrite E. rewrite upd_length in Lp, Lv.
    repeat split; auto.
    + intros i Hi. destruct (Nat.eq_dec i a) as [->|Ne].
      * destruct (Out a) as [-> _]; [lia|].
        rewrite row_upd_same by lia. now rewrite W.
      * rewrite In_ by lia. now rewrite !row_upd_other by congruence.
    + destruct (Out i) as [-> _]; [lia|]. apply row_upd_other. lia.
    + destruct (Out i) as [_ ->]; [lia|]. apply row_upd_other. lia.
Qed.

(** On a well shaped object [Step] returns, whatever [dt] is. *)
Lemma Step_returns (dt : Q) (s : Sim) :
  well_shaped s ->
  exists e',
    wall_loop (radius s) (sideLength s) (seq 0 (Z.to_nat (partCount s)))
      (resolve_all dt (colliding_pairs (radius s) (fst (after_flight dt s)))
                   (after_flight dt s)) = Done e' /\
    Step dt s = Done (set_arrays s (fst e') (snd e')) /\
    length (fst e') = length (pos s) /\ length (snd e') = length (vel s) /\
    forall i, (i < length (pos s))%nat ->
      exists x u, row (fst e') i = fst (wall_row (radius s) (sideLength s) x u).
Proof.
  intros [Hn Hv]. unfold Step, after_flight. cbn [fst].
  rewrite Hv, Nat.eqb_refl. cbn [negb].
  set (p := advance dt (pos s) (vel s)).
  set (e := resolve_all dt (colliding_pairs (radius s) p) (p, vel s)).
  assert (Lp : length (fst e) = length (pos s)).
  { unfold e. destruct (resolve_all_lengths dt (colliding_pairs (radius s) p)
                                            (p, vel s)) as [-> _].
    cbn [fst]. now apply advance_length. }
  assert (Lv : length (snd e) = length (vel s)).
  { unfold e. now destruct (resolve_all_lengths dt
      (colliding_pairs (radius s) p) (p, vel s)) as [_ ->]. }
  destruct e as [pe ve] eqn:Ee. cbn [fst snd] in Lp, Lv.
  destruct (wall_loop_seq (radius s) (sideLength s)
              (Z.to_nat (partCount s)) 0 pe ve) as (p' & v' & E & Lp' & Lv' & In_ & _).
  { rewrite Lp, Hn. lia. }
  exists (p', v'). rewrite E. cbn [bind fst snd].
  repeat split; try congruence.
  intros i Hi. exists (row pe i), (row ve i). apply In_.
  rewrite Hn. lia.
Qed.

(** ** The walls *)

Section Walls.

Variables r side : Q.
Hypothesis radius_pos : 0 < r.
Hypothesis roomy : 2 * 1.01 * r < side.

Lemma wall_axis_contained (x u : fnum) :
  let x' := fst (wall_axis r side (x, u)) in
  is_nan x' \/ contained r side x'.
Proof.
  unfold wall_axis, contained.
  destruct x as [q| | |]; cbn [fsub fadd fneg flt].
  - destruct (Qltb (q + - r) 0) eqn:A.
    + cbn [fadd flt].
      destruct (Qltb side (r * 1.01 + r)) eqn:B.
      * apply Qltb_lt in B. lra.
      * right. simpl. lra.
    + cbn [fadd flt]. apply Qltb_ge in A.
      destruct (Qltb side (q + r)) eqn:B.
      * right. simpl. lra.
      * apply Qltb_ge in B. right. simpl. lra.
  - right. simpl. lra.
  - cbn [fadd flt]. destruct (Qltb side (r * 1.01 + r)) eqn:B.
    + apply Qltb_lt in B. lra.
    + right. simpl. lra.
  - left. exact I.
Qed.

Lemma wall_row_contained (x u : vec) :
  contained_or_nan r side (fst (wall_row r side x u)).
Proof.
  unfold wall_row, contained_or_nan.
  pose proof (wall_axis_contained (vx x) (vx u)) as H0.
  pose proof (wall_axis_contained (vy x) (vy u)) as H1.
  pose proof (wall_axis_contained (vz x) (vz u)) as H2.
  destruct (wall_axis r side (vx x, vx u)) as [x0 u0].
  destruct (wall_axis r side (vy x, vy u)) as [x1 u1].
  destruct (wall_axis r side (vz x, vz u)) as [x2 u2].
  cbn [fst vx vy vz] in *. intros c [<-|[<-|[<-|[]]]]; assumption.
Qed.

End Walls.

(** X16.  Containment after [Step], for the coordinates that are numbers. *)
Lemma Step_contains_numbers (dt : Q) (s s' : Sim) :
  well_shaped s -> 0 < radius s -> 2 * 1.01 * radius s < sideLength s ->
  Step dt s = Done s' ->
  forall i, (i < length (pos s))%nat ->
            contained_or_nan (radius s) (sideLength s) (row (pos s') i).
Proof.
  intros W R S E i Hi.
  destruct (Step_returns dt s W) as (e' & _ & E' & _ & _ & Hrow).
  rewrite E in E'. injection E' as ->. cbn [pos set_arrays].
  destruct (Hrow i Hi) as (x & u & ->). now apply wall_row_contained.
Qed.

(** C3, at a state with a degenerate pair.  [coincident] has a positive
    radius 1 and a side 10 > 2 * 1.01 * 1; [Step(1)] returns, and the
    coordinates of both particles are NaN, which no comparison with the
    radius satisfies: the wall tests of lines 174 to 197 are all false on a
    NaN and leave it in place. *)
Theorem coincident_pair_escapes_walls :
  0 < radius coincident /\
  2 * 1.01 * radius coincident < sideLength coincident /\
  well_shaped coincident /\
  exists s',
    Step 1 coincident = Done s' /\
    is_nan (vx (row (pos s') 0)) /\
    ~ contained (radius coincident) (sideLength coincident)
                (vx (row (pos s') 0)) /\
    ~ vcontained (radius coincident) (sideLength coincident)
                 (row (pos s') 1).
Proof.
  split; [reflexivity|]. split; [reflexivity|].
  split; [split; reflexivity|].
  eexists. split; [vm_compute; reflexivity|].
  split; [exact I|].
  split; [intros [H _]; exact H|intros [[H _] _]; exact H].
Qed.

(** ** The timestep *)

(** C5 fails at [dt = -1]: [Step] raises nothing and moves the particle of
    [single] from (5, 5, 5) back to (4, 5, 5). *)
Lemma negative_dt_is_not_rejected :
  -1 <= 0 /\
  (forall e b, Step (-1) single <> Raised e b) /\
  exists s',
    Step (-1) single = Done s' /\
    veq (row (pos s') 0) (Vq 4 5 5) /\
    ~ veq (row (pos s') 0) (row (pos single) 0).
Proof.
  split; [discriminate|].
  split; [intros e b; vm_compute; discriminate|].
  eexists. split; [vm_compute; reflexivity|].
  split; [vm_compute; repeat split; reflexivity|].
  vm_compute. intros (H & _). discriminate H.
Qed.

(** C5, as the code has it.  [Step] does not look at the sign of [dt]: on
    an object whose arrays have [partCount] rows and for every [dt <= 0] it
    returns, having run the free flight with that [dt], then the collision
    loop and the wall loop, as for a positive [dt]. *)
Theorem Step_accepts_nonpositive_dt (dt : Q) (s : Sim) :
  well_shaped s -> dt <= 0 ->
  exists e',
    wall_loop (radius s) (sideLength s) (seq 0 (Z.to_nat (partCount s)))
      (resolve_all dt (colliding_pairs (radius s) (fst (after_flight dt s)))
                   (after_flight dt s)) = Done e' /\
    Step dt s = Done (set_arrays s (fst e') (snd e')).
Proof.
  intros W _. destruct (Step_returns dt s W) as (e' & E & E' & _).
  now exists e'.
Qed.

Lemma Step_accepts_nonpositive_dt_witness :
  well_shaped single /\ -1 <= 0 /\
  exists e',
    wall_loop (radius single) (sideLength single)
      (seq 0 (Z.to_nat (partCount single)))
      (resolve_all (-1)
         (colliding_pairs (radius single) (fst (after_flight (-1) single)))
         (after_flight (-1) single)) = Done e' /\
    Step (-1) single = Done (set_arrays single (fst e') (snd e')).
Proof.
  assert (W : well_shaped single) by (split; reflexivity).
  assert (L : -1 <= 0) by discriminate.
  split; [exact W|]. split; [exact L|].
  exact (Step_accepts_nonpositive_dt (-1) single W L).
Defined.

(** ** The thermal speed *)


Lemma radicand_above_kinetic_theory (T m : Q) :
  0 < T -> 0 < m -> 0 <= 3 * k_B * T / m < thermal_radicand T m.
Proof.
  intros HT Hm. unfold thermal_radicand, k_B, Qdiv.
  pose proof (Qinv_lt_0_compat m Hm) as Hi.
  pose proof (Qmult_lt_0_compat _ _ HT Hi) as Hp.
  rewrite <- !Qmult_assoc.
  generalize dependent (T * / m). intros x Hx.
  assert (Hc : 0 < / (Z.pow_pos 10 23 # 1)) by reflexivity.
  pose proof (Qmult_lt_0_compat _ _ Hc Hx) as Hcx.
  generalize dependent (/ (Z.pow_pos 10 23 # 1) * x). intros y Hy.
  split; lra.
Qed.

(** C7, on the code.  Line 35 takes the root of [3 * 1.87e-23 * T / mass];
    1.87e-23 is not the Boltzmann constant 1.380649e-23, so for every
    positive mass and temperature the speed scale of the constructor is
    not [sqrt(3 * k_B * T / mass)]: it is larger. *)
Theorem thermal_speed_is_not_rms (T m : Q) :
  0 < T -> 0 < m ->
  (sqrt (Q2R (3 * k_B * T / m)) < sqrt (Q2R (thermal_radicand T m)))%R.
Proof.
  intros HT Hm.
  destruct (radicand_above_kinetic_theory T m HT Hm) as [H0 H1].
  apply sqrt_lt_1.
  - replace 0%R with (Q2R 0) by (unfold Q2R; simpl; lra). now apply Qle_Rle.
  - replace 0%R with (Q2R 0) by (unfold Q2R; simpl; lra). apply Qle_Rle.
    apply Qlt_le_weak. eapply Qle_lt_trans; eauto.
  - now apply Qlt_Rlt.
Qed.

Lemma thermal_speed_is_not_rms_witness :
  0 < 300 /\ 0 < 5e-20 /\
  (sqrt (Q2R (3 * k_B * 300 / 5e-20))
   < sqrt (Q2R (thermal_radicand 300 5e-20)))%R.
Proof.
  assert (HT : 0 < 300) by reflexivity.
  assert (Hm : 0 < 5e-20) by reflexivity.
  split; [exact HT|]. split; [exact Hm|].
  exact (thermal_speed_is_not_rms 300 5e-20 HT Hm).
Defined.

(** ** The constructor *)

Lemma bind_built {A B : Type} (m : outcome A) (k : A -> outcome B) :
  built_some m -> (forall a, built_some (k a)) -> built_some (m <- m ;; k m).
Proof.
  intros Hm Hk. destruct m as [a|e b]; simpl.
  - apply Hk.
  - intros e' H. injection H as -> ->. now apply (Hm e').
Qed.

Lemma place_built (s : Sim) (dists : list Q) (rnd : nat -> Q) (i : nat)
  (p : list vec) (tbl : option table) :
  built_some (place s dists rnd i p tbl).
Proof.
  unfold place, pmod, pfloordiv, lookup, built_some.
  repeat (apply bind_built;
          [ intros e; repeat match goal with
              | |- context [if ?c then _ else _] => destruct c
              | |- context [match ?x with _ => _ end] => destruct x
              end; discriminate
          | intros ? ]).
  intros e.
  destruct tbl as [t|]; [|discriminate].
  destruct (set_cell _ _ _ _); discriminate.
Qed.

Lemma place_loop_built (s : Sim) (dists : list Q) (rnd : nat -> Q)
  (idx : list nat) :
  forall p tbl, built_some (place_loop s dists rnd idx p tbl).
Proof.
  induction idx as [|i rest IH]; intros p tbl.
  - intros e; discriminate.
  - cbn [place_loop]. apply bind_built; [apply place_built|]. intros a. apply IH.
Qed.

Lemma SetParticles_built (s : Sim) (rnd uni : nat -> Q) :
  built_some (SetParticles s rnd uni).
Proof.
  unfold SetParticles. destruct (partCount s <? 0)%Z.
  - intros e; discriminate.
  - apply bind_built; [apply place_loop_built|]. intros a e; discriminate.
Qed.

(** The constructor never returns: whatever it is given, it raises. *)
Lemma init_always_raises (n : Z) (m r v T : Q) (rnd uni : nat -> Q) :
  exists e b, __init__ n m r v T rnd uni = Raised e b.
Proof.
  unfold __init__. destruct (n <? 0)%Z; [eauto|].
  destruct (pow_overflows _); [eauto|].
  destruct (Qeq_bool m 0); [eauto|].
  destruct (SetParticles _ rnd uni); simpl; eauto.
Qed.

(** C6 fails at a radius of zero: the constructor has allocated and started
    to fill the arrays when an exception leaves it, and the exception is
    not about the configuration. *)
Lemma zero_radius_is_not_rejected :
  ~ 0 < 0 /\
  ~ fails_fast (__init__ 8 1 0 1000 300 zero_draws zero_draws) /\
  exists b, __init__ 8 1 0 1000 300 zero_draws zero_draws
            = Raised AttributeError (Some b) /\
            length (fst b) = 8%nat /\ length (snd b) = 8%nat.
Proof.
  split; [discriminate|].
  split.
  - intros [e H]. vm_compute in H. discriminate H.
  - eexists. split; [vm_compute; reflexivity|]. split; reflexivity.
Qed.

(** C6, as the code has it.  The constructor checks none of its arguments.
    It fails before any ensemble state is built exactly when the particle
    count is negative, which the allocation of line 24 refuses; no value of
    the mass, the radius, the volume or the temperature makes it do so. *)
Theorem init_checks_no_argument (n : Z) (m r v T : Q) (rnd uni : nat -> Q) :
  fails_fast (__init__ n m r v T rnd uni) <-> (n < 0)%Z.
Proof.
  unfold __init__. destruct (n <? 0)%Z eqn:N.
  - apply Z.ltb_lt in N. split; [auto|]. intros _. now exists ValueError.
  - apply Z.ltb_ge in N. split; [|lia]. intros [e H]. exfalso.
    destruct (pow_overflows _); [discriminate H|].
    destruct (Qeq_bool m 0); [discriminate H|].
    revert H. apply bind_built; [apply SetParticles_built|].
    intros a e'; discriminate.
Qed.

(** ** The cell table *)

Lemma cell_table_rows (side : Q) (c1 : Z) :
  (c1 <> 0)%Z ->
  cell_table side c1
  = Some (map (cell_row (side / inject_Z c1)) (seq 0 (Z.to_nat (c1 ^ 3)))).
Proof.
  intros H. unfold cell_table. apply Z.eqb_neq in H. now rewrite H.
Qed.

(** From row [cubicParts1] on, the lower bounds that lines 44 and 45 write
    are at the far wall or beyond it. *)
Lemma cell_row_beyond (side : Q) (c1 : Z) (k : nat) :
  0 < side -> (0 < c1)%Z -> (c1 <= Z.of_nat k)%Z ->
  side <= hd 0 (cell_row (side / inject_Z c1) k).
Proof.
  intros Hs Hc Hk. unfold cell_row. cbn [hd].
  assert (C : 0 < inject_Z c1).
  { replace 0 with (inject_Z 0) by reflexivity. rewrite <- Zlt_Qlt. lia. }
  assert (K : inject_Z c1 <= inject_Z (Z.of_nat k)) by now rewrite <- Zle_Qle.
  unfold Qdiv. pose proof (Qinv_lt_0_compat _ C) as Hi.
  assert (E : side == side * / inject_Z c1 * inject_Z c1).
  { field. intros H. rewrite H in C. discriminate C. }
  rewrite E at 1. apply Qmult_le_l; [|exact K].
  now apply Qmult_lt_0_compat.
Qed.

(** C9, at the default configuration.  The constructor does not return: the
    loop of [SetParticles] writes into [partBelonging] at line 83, before
    line 39 has created it, and no argument makes the constructor return.
    The rows that lines 41 to 45 would write are not the cells of the grid
    either: row [i] holds [cellLength * i] and [cellLength * (i + 1)] on all
    three axes, so that among the 27 rows of the default configuration the
    24 rows from row 3 on start at the far wall or beyond. *)
Theorem default_construction_raises :
  (exists b, __init__ 45 5e-20 2e-10 1e-23 300 zero_draws zero_draws
             = Raised AttributeError (Some b)) /\
  (forall n m r v T rnd uni s, __init__ n m r v T rnd uni <> Done s) /\
  let side := Qcbrt 1e-23 in
  exists t,
    cell_table side (icbrt 45) = Some t /\
    length t = 27%nat /\
    Forall2 Qeq (nth 1 t [])
            [side / 3; side * 2 / 3; side / 3; side * 2 / 3;
             side / 3; side * 2 / 3; 0] /\
    Forall (fun row => side <= hd 0 row) (skipn 3 t).
Proof.
  split; [eexists; vm_compute; reflexivity|].
  split.
  - intros n m r v T rnd uni s H.
    destruct (init_always_raises n m r v T rnd uni) as (e & b & E).
    congruence.
  - cbv zeta. eexists. split; [apply cell_table_rows; discriminate|].
    split; [reflexivity|].
    change (icbrt 45) with 3%Z. change (Z.to_nat (3 ^ 3)) with 27%nat.
    split.
    { cbn [seq map nth]. unfold cell_row. generalize (Qcbrt 1e-23). intros q.
      repeat apply Forall2_cons; try apply Forall2_nil.
      all: unfold Qdiv; simpl inject_Z; unfold inject_Z; ring. }
    rewrite skipn_map, skipn_seq.
    apply Forall_map, Forall_forall. intros k Hk. apply in_seq in Hk.
    apply cell_row_beyond; [vm_compute; reflexivity|reflexivity|lia].
Qed.

(** ** The initial placement *)

Section CubeRoot.

Open Scope Z_scope.

Lemma icbrt_bits_spec (k : nat) :
  forall n r, 0 <= r -> r ^ 3 <= n < (r + 2 ^ Z.of_nat k) ^ 3 ->
              let r' := icbrt_bits k n r in
              0 <= r' /\ r' ^ 3 <= n < (r' + 1) ^ 3.
Proof.
  induction k as [|k IH]; intros n r Hr H.
  - simpl in *. auto.
  - cbn [icbrt_bits].
    assert (P : 2 ^ Z.of_nat (S k) = 2 * 2 ^ Z.of_nat k).
    { rewrite Nat2Z.inj_succ, Z.pow_succ_r; lia. }
    rewrite P in H.
    assert (0 < 2 ^ Z.of_nat k) by (apply Z.pow_pos_nonneg; lia).
    destruct (Z.leb_spec ((r + 2 ^ Z.of_nat k) ^ 3) n) as [L|L].
    + apply IH; [lia|]. split; [exact L|].
      replace (r + 2 ^ Z.of_nat k + 2 ^ Z.of_nat k)
        with (r + 2 * 2 ^ Z.of_nat k) by lia.
      apply H.
    + apply IH; [lia|]. split; [apply H|exact L].
Qed.

Lemma icbrt_spec (n : Z) :
  0 < n -> 0 <= icbrt n /\ icbrt n ^ 3 <= n < (icbrt n + 1) ^ 3.
Proof.
  intros H. unfold icbrt. destruct (Z.leb_spec n 0) as [L|_]; [lia|].
  apply icbrt_bits_spec; [lia|]. split; [simpl; lia|].
  rewrite Z.add_0_l.
  pose proof (Z.log2_spec n H) as [_ U].
  rewrite Nat2Z.inj_succ, Z2Nat.id by apply Z.log2_nonneg.
  set (b := 2 ^ Z.succ (Z.log2 n)) in *.
  assert (1 <= b) by lia.
  assert (b <= b ^ 3) by nia.
  lia.
Qed.

Lemma icbrt_cube (m : Z) : 0 < m -> icbrt (m ^ 3) = m.
Proof.
  intros H.
  assert (P : 0 < m ^ 3) by (apply Z.pow_pos_nonneg; lia).
  destruct (icbrt_spec (m ^ 3) P) as (R & L & U).
  set (r := icbrt (m ^ 3)) in *.
  assert (r <= m) by (apply (Z.pow_le_mono_l_iff r m 3); lia).
  assert (m < r + 1) by (apply (Z.pow_lt_mono_l_iff m (r + 1) 3); lia).
  lia.
Qed.

(** The cubes whose root lines 27 and 57 find: 1, 8 and 27. *)
Lemma floor_cbrt_small (m : Z) : 0 < m < 4 -> floor_cbrt (m ^ 3) = m.
Proof.
  intros H. assert (C : m = 1 \/ m = 2 \/ m = 3) by lia.
  destruct C as [E | [E | E]]; rewrite E; reflexivity.
Qed.

Lemma floor_cbrt_pos (n : Z) : 0 < n -> 0 < floor_cbrt n.
Proof.
  intros H. destruct (icbrt_spec n H) as (R & L & U). unfold floor_cbrt.
  destruct ((icbrt n ^ 3 =? n) && (4 <=? icbrt n))%bool eqn:E.
  - apply andb_prop in E. destruct E as [_ E]. apply Z.leb_le in E. lia.
  - destruct (Z.eq_dec (icbrt n) 0) as [Z0|Z0]; [|lia].
    rewrite Z0 in U. simpl in U. lia.
Qed.

(** The three grid indices of particle [i] of a full [m * m * m] grid. *)
Lemma grid_indices (m i : Z) :
  0 < m -> 0 <= i < m ^ 3 ->
  0 <= i mod m < m /\ 0 <= (i mod m ^ 2) / m < m /\ 0 <= i / m ^ 2 < m.
Proof.
  intros Hm Hi.
  assert (P2 : m ^ 2 = m * m) by lia.
  assert (P3 : m ^ 3 = m * m ^ 2) by lia.
  assert (0 < m ^ 2) by nia.
  split; [apply Z.mod_pos_bound; lia|]. split.
  - pose proof (Z.mod_pos_bound i (m ^ 2) ltac:(lia)) as B. split.
    + apply Z.div_pos; lia.
    + apply Z.div_lt_upper_bound; lia.
  - split; [apply Z.div_pos; lia|]. apply Z.div_lt_upper_bound; lia.
Qed.

Lemma grid_indices_inj (m i j : Z) :
  0 < m ->
  i mod m = j mod m -> (i mod m ^ 2) / m = (j mod m ^ 2) / m ->
  i / m ^ 2 = j / m ^ 2 -> i = j.
Proof.
  intros Hm Hx Hy Hz.
  assert (P2 : m ^ 2 = m * m) by lia.
  assert (0 < m ^ 2) by nia.
  assert (M : forall a, (a mod m ^ 2) mod m = a mod m).
  { intros a. rewrite P2, Z.rem_mul_r by lia.
    rewrite (Z.mul_comm m), Z.mod_add by lia. apply Z.mod_mod. lia. }
  rewrite (Z.div_mod i (m ^ 2)), (Z.div_mod j (m ^ 2)) by lia.
  rewrite (Z.div_mod (i mod m ^ 2) m), (Z.div_mod (j mod m ^ 2) m) by lia.
  rewrite !M. congruence.
Qed.

End CubeRoot.

Section Lattice.

Variables (a b g : Q) (m : Z).
Hypothesis m_pos : (0 < m)%Z.
Hypothesis g_nonneg : 0 <= g.
Hypothesis room : inject_Z (m - 1) * g <= b - a.

Local Abbreviation step := ((b - a) / inject_Z (m - 1)).

Lemma lattice_step :
  (m <> 1)%Z ->
  0 < inject_Z (m - 1) /\ step * inject_Z (m - 1) == b - a /\ g <= step.
Proof.
  intros H.
  assert (P : 0 < inject_Z (m - 1)).
  { replace 0 with (inject_Z 0) by reflexivity. rewrite <- Zlt_Qlt. lia. }
  split; [exact P|]. split.
  - field. intros E. rewrite E in P. discriminate P.
  - apply Qle_shift_div_l; [exact P|].
    now rewrite Qmult_comm.
Qed.

Lemma lattice_bounds (k : Z) :
  (0 <= k < m)%Z -> a <= lattice a b m k <= b.
Proof.
  intros Hk. unfold lattice. destruct (Z.eqb_spec m 1) as [E|E].
  - assert (R : inject_Z (m - 1) == 0) by (rewrite E; reflexivity).
    pose proof room as R'. rewrite R in R'. lra.
  - destruct (lattice_step E) as (P & S & G).
    assert (K0 : 0 <= inject_Z k).
    { replace 0 with (inject_Z 0) by reflexivity. rewrite <- Zle_Qle. lia. }
    assert (K1 : inject_Z k <= inject_Z (m - 1)) by (rewrite <- Zle_Qle; lia).
    assert (0 <= step) by lra.
    split; nra.
Qed.

Lemma lattice_gap (k k' : Z) :
  (0 <= k < k')%Z -> (k' < m)%Z -> lattice a b m k + g <= lattice a b m k'.
Proof.
  intros Hk Hk'. unfold lattice. destruct (Z.eqb_spec m 1) as [E|E]; [lia|].
  destruct (lattice_step E) as (P & S & G).
  assert (K : inject_Z k + 1 <= inject_Z k').
  { replace 1 with (inject_Z 1) by reflexivity.
    rewrite <- inject_Z_plus, <- Zle_Qle. lia. }
  assert (0 <= step) by lra.
  nra.
Qed.

(** Two particles on different lattice coordinates of an axis differ on it,
    whatever their jitter below [g]. *)
Lemma lattice_apart (k k' : Z) (u u' : Q) :
  (0 <= k < m)%Z -> (0 <= k' < m)%Z -> k <> k' ->
  0 <= u < g -> 0 <= u' < g ->
  ~ lattice a b m k + u == lattice a b m k' + u'.
Proof.
  intros Hk Hk' Ne Hu Hu' E.
  destruct (Z.lt_total k k') as [L|[L|L]]; [|contradiction|].
  - pose proof (lattice_gap k k' ltac:(lia) ltac:(lia)). lra.
  - pose proof (lattice_gap k' k ltac:(lia) ltac:(lia)). lra.
Qed.

Lemma linspace_index (k : Z) :
  (0 <= k < m)%Z -> py_index (linspace a b m) k = Some (lattice a b m k).
Proof.
  intros Hk. unfold linspace, lattice.
  destruct (Z.leb_spec m 0) as [L|_]; [lia|].
  destruct (Z.eqb_spec m 1) as [E|E].
  - assert (k = 0%Z) by lia. subst k. reflexivity.
  - unfold py_index, py_pos. rewrite length_map, length_seq.
    rewrite Z2Nat.id by lia.
    assert (B : ((0 <=? k) && (k <? m))%Z = true).
    { apply andb_true_intro. split; [apply Z.leb_le|apply Z.ltb_lt]; lia. }
    rewrite B. rewrite nth_error_map.
    rewrite (nth_error_nth' _ O) by (rewrite length_seq; lia).
    rewrite seq_nth by lia. cbn [option_map Nat.add].
    now rewrite Z2Nat.id by lia.
Qed.

End Lattice.

Lemma Forall_upd {A : Type} (P : A -> Prop) (i : nat) (x : A) (l : list A) :
  Forall P l -> P x -> Forall P (upd i x l).
Proof.
  intros H Hx. revert i. induction H as [|h t Hh Ht IH]; intros [|i]; simpl;
    constructor; auto.
Qed.

Lemma set_cell_ok (n i : nat) (x : Q) (t : table) :
  table_ok n t -> (i < n)%nat ->
  exists t', set_cell t (Z.of_nat i) 6 x = Some t' /\ table_ok n t'.
Proof.
  intros [L F] Hi. unfold set_cell, py_pos.
  assert (B : ((0 <=? Z.of_nat i) && (Z.of_nat i <? Z.of_nat (length t)))%Z
              = true).
  { apply andb_true_intro. split; [apply Z.leb_le|apply Z.ltb_lt]; lia. }
  rewrite B, Nat2Z.id.
  destruct (nth_error t i) as [r|] eqn:E.
  - assert (R : (6 < length r)%nat).
    { rewrite Forall_forall in F. apply F. eapply nth_error_In; eauto. }
    apply Nat.ltb_lt in R. rewrite R. eexists. split; [reflexivity|].
    split; [now rewrite upd_length|].
    apply Forall_upd; [exact F|]. rewrite upd_length. now apply Nat.ltb_lt.
  - apply nth_error_None in E. lia.
Qed.

Section Placement.

Variables (s : Sim) (rnd : nat -> Q) (m : Z).
Hypothesis m_pos : (0 < m)%Z.
Hypothesis full : partCount s = (m ^ 3)%Z.
Hypothesis side1 : cubicParts1 s = m.
Hypothesis side2 : cubicParts2 s = (m ^ 2)%Z.

Local Abbreviation n := (Z.to_nat (m ^ 3)).
Local Abbreviation dists :=
  (linspace (radius s * 5) (sideLength s - radius s * 5) m).

Lemma place_full (i : nat) (p : list vec) (t : table) :
  (i < n)%nat -> table_ok n t ->
  exists t',
    place s dists rnd i p (Some t) = Done (upd i (placed s rnd i) p, Some t')
    /\ table_ok n t'.
Proof.
  intros Hi T.
  assert (P3 : (0 < m ^ 3)%Z) by (apply Z.pow_pos_nonneg; lia).
  assert (P2 : (0 < m ^ 2)%Z) by (apply Z.pow_pos_nonneg; lia).
  assert (I : (0 <= Z.of_nat i < m ^ 3)%Z) by lia.
  destruct (grid_indices m (Z.of_nat i) m_pos I) as (X & Y & Z_).
  destruct (set_cell_ok n i (inject_Z (Z.of_nat i)) t T Hi) as (t' & E & T').
  exists t'. split; [|exact T'].
  unfold place, pmod, pfloordiv, lookup. rewrite side1, side2.
  assert (N3 : (m ^ 3 =? 0)%Z = false) by (apply Z.eqb_neq; lia).
  assert (N2 : (m ^ 2 =? 0)%Z = false) by (apply Z.eqb_neq; lia).
  assert (N1 : (m =? 0)%Z = false) by (apply Z.eqb_neq; lia).
  rewrite N3, N2, N1. cbn [bind].
  rewrite (Z.mod_small (Z.of_nat i)) by lia.
  rewrite (linspace_index _ _ m m_pos _ X). cbn [bind].
  rewrite (linspace_index _ _ m m_pos _ Y). cbn [bind].
  rewrite (linspace_index _ _ m m_pos _ Z_). cbn [bind].
  rewrite E. unfold placed. now rewrite side1.
Qed.

Lemma place_loop_full (k : nat) :
  forall (a : nat) (p : list vec) (t : table),
    (a + k <= n)%nat -> (n <= length p)%nat -> table_ok n t ->
    exists p' t',
      place_loop s dists rnd (seq a k) p (Some t) = Done (p', Some t') /\
      length p' = length p /\ table_ok n t' /\
      (forall i, (a <= i < a + k)%nat -> row p' i = placed s rnd i) /\
      (forall i, ~ (a <= i < a + k)%nat -> row p' i = row p i).
Proof.
  induction k as [|k IH]; intros a p t H L T.
  - exists p, t. simpl. split; [reflexivity|]. split; [reflexivity|].
    split; [exact T|]. split; [intros i Hi; lia|reflexivity].
  - cbn [seq place_loop].
    destruct (place_full a p t ltac:(lia) T) as (t1 & E & T1).
    rewrite E. cbn [bind fst snd].
    destruct (IH (S a) (upd a (placed s rnd a) p) t1)
      as (p' & t' & E' & Lp & T' & In_ & Out); [lia| |exact T1|].
    { now rewrite upd_length. }
    exists p', t'. rewrite upd_length in Lp.
    split; [exact E'|]. split; [exact Lp|]. split; [exact T'|]. split.
    + intros i Hi. destruct (Nat.eq_dec i a) as [->|Ne].
      * rewrite Out by lia. apply row_upd_same. lia.
      * apply In_. lia.
    + intros i Hi. rewrite Out by lia. apply row_upd_other. lia.
Qed.

Hypothesis m_small : (m < 4)%Z.

(** On an object that holds a full grid and has its table, [SetParticles]
    returns and has put every particle at its lattice point. *)
Lemma SetParticles_full (uni : nat -> Q) (t : table) :
  partBelonging s = Some t -> table_ok n t ->
  exists s',
    SetParticles s rnd uni = Done s' /\
    length (pos s') = n /\
    radius s' = radius s /\ sideLength s' = sideLength s /\
    forall i, (i < n)%nat -> row (pos s') i = placed s rnd i.
Proof.
  intros Ht T. unfold SetParticles.
  assert (P3 : (0 < m ^ 3)%Z) by (apply Z.pow_pos_nonneg; lia).
  destruct (Z.ltb_spec (partCount s) 0) as [L|_]; [lia|].
  rewrite full, (floor_cbrt_small m (conj m_pos m_small)), Ht.
  destruct (place_loop_full n 0 (repeat vzero n) t)
    as (p' & t' & E & Lp & T' & In_ & _); auto.
  { now rewrite repeat_length. }
  rewrite E. cbn [bind fst snd]. eexists. split; [reflexivity|].
  cbn [pos radius sideLength]. rewrite repeat_length in Lp.
  split; [exact Lp|]. split; [reflexivity|]. split; [reflexivity|].
  intros i Hi. apply In_. lia.
Qed.

Hypothesis radius_pos : 0 < radius s.
Hypothesis spaced :
  inject_Z (m - 1) * radius s <= sideLength s - radius s * 5 - radius s * 5.
Hypothesis draws : unit_draws rnd.

Lemma jitter_range (k : nat) :
  0 <= rnd k * (radius s * 0.5) < radius s * 0.5.
Proof.
  destruct (draws k). split; nra.
Qed.

Lemma jitter_below_radius (k : nat) :
  0 <= rnd k * (radius s * 0.5) < radius s.
Proof.
  destruct (jitter_range k). split; lra.
Qed.

Lemma placed_in_range (i : nat) : (i < n)%nat -> vspawn_range s (placed s rnd i).
Proof.
  intros Hi.
  assert (P3 : (0 < m ^ 3)%Z) by (apply Z.pow_pos_nonneg; lia).
  assert (I : (0 <= Z.of_nat i < m ^ 3)%Z) by lia.
  destruct (grid_indices m (Z.of_nat i) m_pos I) as (X & Y & Z_).
  assert (G : 0 <= radius s) by lra.
  unfold vspawn_range, placed, spawn_range, Vq. cbn [vx vy vz]. rewrite side1.
  pose proof (lattice_bounds _ _ _ m m_pos G spaced _ X).
  pose proof (lattice_bounds _ _ _ m m_pos G spaced _ Y).
  pose proof (lattice_bounds _ _ _ m m_pos G spaced _ Z_).
  pose proof (jitter_range (3 * i + 0)).
  pose proof (jitter_range (3 * i + 1)).
  pose proof (jitter_range (3 * i + 2)).
  repeat split; lra.
Qed.

Lemma placed_apart (i j : nat) :
  (i < n)%nat -> (j < n)%nat -> i <> j ->
  ~ veq (placed s rnd i) (placed s rnd j).
Proof.
  intros Hi Hj Ne.
  assert (P3 : (0 < m ^ 3)%Z) by (apply Z.pow_pos_nonneg; lia).
  assert (I : (0 <= Z.of_nat i < m ^ 3)%Z) by lia.
  assert (J : (0 <= Z.of_nat j < m ^ 3)%Z) by lia.
  destruct (grid_indices m (Z.of_nat i) m_pos I) as (Xi & Yi & Zi).
  destruct (grid_indices m (Z.of_nat j) m_pos J) as (Xj & Yj & Zj).
  assert (G : 0 <= radius s) by lra.
  unfold veq, placed, Vq. cbn [vx vy vz feq]. rewrite side1.
  intros (Ex & Ey & Ez).
  apply Ne, Nat2Z.inj, (grid_indices_inj m); [exact m_pos| | |].
  - destruct (Z.eq_dec (Z.of_nat i mod m) (Z.of_nat j mod m)) as [E|D]; auto.
    exfalso. revert Ex.
    apply (lattice_apart _ _ _ m m_pos G spaced);
      auto using jitter_below_radius.
  - destruct (Z.eq_dec ((Z.of_nat i mod m ^ 2) / m) ((Z.of_nat j mod m ^ 2) / m))
      as [E|D]; auto.
    exfalso. revert Ey.
    apply (lattice_apart _ _ _ m m_pos G spaced);
      auto using jitter_below_radius.
  - destruct (Z.eq_dec (Z.of_nat i / m ^ 2) (Z.of_nat j / m ^ 2)) as [E|D]; auto.
    exfalso. revert Ez.
    apply (lattice_apart _ _ _ m m_pos G spaced);
      auto using jitter_below_radius.
Qed.

End Placement.

(** C8 fails on two counts.  With eight particles of radius 1 in a chamber
    of side 20 and every draw one half, the last particle is at 15.25 on
    each axis, beyond [sideLength - 5 * radius = 15].  In a chamber of side
    10.25 the lattice coordinates are 5 and 5.25; a jitter of 0.5 * 0.5 on
    the x axis of particle 0 and none elsewhere puts particles 0 and 1 at
    the same point (5.25, 5, 5). *)
Lemma spawn_leaves_lattice_interval :
  partCount cube8 = (2 ^ 3)%Z /\ unit_draws half_draws /\
  (exists s',
      SetParticles cube8 half_draws zero_draws = Done s' /\
      veq (row (pos s') 7) (Vq (1525 # 100) (1525 # 100) (1525 # 100)) /\
      ~ lattice_range cube8 (vx (row (pos s') 7))) /\
  partCount cube8_tight = (2 ^ 3)%Z /\ unit_draws first_draw /\
  (exists s',
      SetParticles cube8_tight first_draw zero_draws = Done s' /\
      veq (row (pos s') 0) (Vq (21 # 4) 5 5) /\
      veq (row (pos s') 0) (row (pos s') 1)).
Proof.
  split; [reflexivity|].
  split; [intros k; split; [discriminate|reflexivity]|].
  split.
  { eexists. split; [vm_compute; reflexivity|].
    split; [vm_compute; repeat split; reflexivity|].
    vm_compute. intros [_ H]. apply H. reflexivity. }
  split; [reflexivity|].
  split; [intros [|k]; split; simpl; try discriminate; reflexivity|].
  eexists. split; [vm_compute; reflexivity|].
  split; vm_compute; repeat split; reflexivity.
Qed.

(** C8, as the code has it.  When the particle count is one of the cubes
    1, 8 and 27, whose root lines 27 and 57 find, the radius is positive and
    the lattice step is at least the radius
    ([(m - 1) * radius <= sideLength - 10 * radius]), [SetParticles], on an
    object that has its cell table, returns with all particles at different
    points, every coordinate in [[5 * radius, sideLength - 4.5 * radius]]:
    a lattice point of [[5 * radius, sideLength - 5 * radius]] plus a jitter
    in [[0, 0.5 * radius)]. *)
Theorem SetParticles_spawns_on_jittered_lattice
  (s : Sim) (rnd uni : nat -> Q) (m : Z) (t : table) :
  (0 < m < 4)%Z ->
  partCount s = (m ^ 3)%Z -> cubicParts1 s = m -> cubicParts2 s = (m ^ 2)%Z ->
  partBelonging s = Some t -> table_ok (Z.to_nat (m ^ 3)) t ->
  0 < radius s ->
  inject_Z (m - 1) * radius s <= sideLength s - radius s * 5 - radius s * 5 ->
  unit_draws rnd ->
  exists s',
    SetParticles s rnd uni = Done s' /\
    length (pos s') = Z.to_nat (m ^ 3) /\
    (forall i, (i < Z.to_nat (m ^ 3))%nat -> vspawn_range s (row (pos s') i)) /\
    (forall i j, (i < Z.to_nat (m ^ 3))%nat -> (j < Z.to_nat (m ^ 3))%nat ->
                 i <> j -> ~ veq (row (pos s') i) (row (pos s') j)).
Proof.
  intros [Hm Hm'] Hn H1 H2 Ht T Hr Hs Hd.
  destruct (SetParticles_full s rnd m Hm Hn H1 H2 Hm' uni t Ht T)
    as (s' & E & L & _ & _ & P).
  exists s'. split; [exact E|]. split; [exact L|]. split.
  - intros i Hi. rewrite (P i Hi). now apply (placed_in_range s rnd m).
  - intros i j Hi Hj Ne. rewrite (P i Hi), (P j Hj).
    now apply (placed_apart s rnd m).
Qed.

Lemma SetParticles_spawns_on_jittered_lattice_witness :
  (0 < 2 < 4)%Z /\
  partCount cube8 = (2 ^ 3)%Z /\ cubicParts1 cube8 = 2%Z /\
  cubicParts2 cube8 = (2 ^ 2)%Z /\
  partBelonging cube8 = Some (repeat (repeat 0 7) 8) /\
  table_ok (Z.to_nat (2 ^ 3)) (repeat (repeat 0 7) 8) /\
  0 < radius cube8 /\
  inject_Z (2 - 1) * radius cube8
  <= sideLength cube8 - radius cube8 * 5 - radius cube8 * 5 /\
  unit_draws half_draws /\
  exists s',
    SetParticles cube8 half_draws zero_draws = Done s' /\
    length (pos s') = Z.to_nat (2 ^ 3) /\
    (forall i, (i < Z.to_nat (2 ^ 3))%nat ->
               vspawn_range cube8 (row (pos s') i)) /\
    (forall i j, (i < Z.to_nat (2 ^ 3))%nat -> (j < Z.to_nat (2 ^ 3))%nat ->
                 i <> j -> ~ veq (row (pos s') i) (row (pos s') j)).
Proof.
  assert (Hm : (0 < 2 < 4)%Z) by lia.
  assert (T : table_ok (Z.to_nat (2 ^ 3)) (repeat (repeat 0 7) 8)).
  { split; [simpl; lia|]. repeat constructor. }
  assert (Hr : 0 < radius cube8) by reflexivity.
  assert (Hs : inject_Z (2 - 1) * radius cube8
               <= sideLength cube8 - radius cube8 * 5 - radius cube8 * 5)
    by (vm_compute; discriminate).
  assert (Hd : unit_draws half_draws)
    by (intros k; split; [discriminate|reflexivity]).
  repeat (split; [first [reflexivity | assumption]|]).
  exact (SetParticles_spawns_on_jittered_lattice cube8 half_draws zero_draws 2
           (repeat (repeat 0 7) 8) Hm eq_refl eq_refl eq_refl eq_refl T Hr Hs Hd).
Defined.

(** * Further properties of the engine *)

(** ** The collision response *)

(** Momentum through the resolution of a pair that is not degenerate. *)
Lemma resolve_conserves_momentum_witness :
  let p := [Vq 5 5 5; Vq (13 # 2) 5 5] in
  let v := [Vq 1 1 0; Vq 0 0 0] in
  ~ veq (vsub (row p 0) (row p 1)) vzero /\
  veq (vadd (row (snd (resolve 1 (p, v) (0, 1)%nat)) 0)
            (row (snd (resolve 1 (p, v) (0, 1)%nat)) 1))
      (vadd (row v 0) (row v 1)).
Proof.
  intros p v.
  assert (N : ~ veq (vsub (row p 0) (row p 1)) vzero).
  { unfold veq; simpl. intros (H & _). discriminate H. }
  split; [exact N|].
  apply (resolve_conserves_momentum 1 p v 0 1); simpl; auto; try lia;
    unfold vfin; simpl; auto.
Defined.

Section Elastic.

Variables p1 p2 v1 v2 : vec.
Hypothesis Fp1 : vfin p1.
Hypothesis Fp2 : vfin p2.
Hypothesis Fv1 : vfin v1.
Hypothesis Fv2 : vfin v2.
Hypothesis normal_nonzero : ~ veq (vsub p1 p2) vzero.

Local Abbreviation n := (vsub p1 p2).
Local Abbreviation w1 := (fst (bounce p1 p2 v1 v2)).
Local Abbreviation w2 := (snd (bounce p1 p2 v1 v2)).

Ltac finite_pair D :=
  fin_vec Fp1; fin_vec Fp2; fin_vec Fv1; fin_vec Fv2;
  match goal with
  | N : ~ veq (vsub (V3 (Fin ?x) (Fin ?y) (Fin ?z))
                    (V3 (Fin ?x0) (Fin ?y0) (Fin ?z0))) vzero |- _ =>
      assert (D : ~ (x + - x0) * (x + - x0) + (y + - y0) * (y + - y0)
                  + (z + - z0) * (z + - z0) == 0)
        by (let H := fresh in
            intros H; apply sumsq_zero in H; apply N; unfold veq; simpl; lra)
  end.

Ltac unfold_bounce D :=
  unfold along, normsq, bounce, vel_change, veq, vadd, vsub, vdivs, vscale,
    vtimes, vmap, vmap2, dot;
  repeat (progress (cbn [vx vy vz fsub fadd fneg fmul fst snd];
                    rewrite ?(fdiv_fin _ _ D), ?fdiv_two));
  cbn [vx vy vz feq fadd fsub fneg fmul];
  match type of D with
  | ~ ?a * ?a + ?b * ?b + ?c * ?c == 0 =>
      revert D; generalize a, b, c; intros ? ? ? D
  end.

Lemma bounce_formula :
  veq w1 (vsub v1 (along n (vsub v1 v2))) /\
  veq w2 (vadd v2 (along n (vsub v1 v2))).
Proof.
  finite_pair D. unfold_bounce D. repeat split; field; exact D.
Qed.

(** X3.  The relative velocity along the normal changes sign. *)
Lemma bounce_reverses_normal :
  feq (dot n (vsub w1 w2)) (fneg (dot n (vsub v1 v2))).
Proof.
  finite_pair D. unfold_bounce D. field; exact D.
Qed.

(** X4.  Across the normal the relative velocity is kept. *)
Lemma bounce_keeps_tangent (t : vec) :
  vfin t -> feq (dot n t) (Fin 0) ->
  feq (dot t (vsub w1 w2)) (dot t (vsub v1 v2)).
Proof.
  intros Ft. fin_vec Ft. finite_pair D. unfold_bounce D. intros T.
  match type of T with
  | ?tl == 0 =>
      match type of D with
      | ~ ?dd == 0 =>
          match goal with
          | |- context [2 * ?N * _ / dd] =>
              match goal with
              | |- ?l == ?r =>
                  assert (E : l == r + (- 2 * N / dd) * tl)
                    by (field; exact D);
                  rewrite E, T; field; exact D
              end
          end
      end
  end.
Qed.

(** X5.  A head-on collision, both velocities along the line of the centers,
    exchanges the two velocities. *)
Lemma bounce_head_on (a b : Q) :
  veq v1 (vscale (Fin a) n) -> veq v2 (vscale (Fin b) n) ->
  veq w1 v2 /\ veq w2 v1.
Proof.
  finite_pair D. unfold_bounce D. intros (A1 & A2 & A3) (B1 & B2 & B3).
  rewrite A1, A2, A3, B1, B2, B3. repeat split; field; exact D.
Qed.

(** The new velocities are numbers. *)
Lemma bounce_finite : vfin w1 /\ vfin w2.
Proof.
  finite_pair D.
  unfold bounce, vel_change, vadd, vsub, vdivs, vscale, vmap, vmap2, dot.
  cbn [vx vy vz fsub fadd fneg fmul fst snd].
  rewrite !(fdiv_fin _ _ D).
  cbn [vx vy vz fsub fadd fneg fmul fst snd]. rewrite !fdiv_two.
  repeat split.
Qed.

End Elastic.

(** X2.  The update of lines 166 to 168 is the equal mass elastic collision:
    the first particle gives up the part of the relative velocity that lies
    along the normal, the second receives it. *)
Theorem bounce_elastic (p1 p2 v1 v2 : vec) :
  vfin p1 -> vfin p2 -> vfin v1 -> vfin v2 -> ~ veq (vsub p1 p2) vzero ->
  veq (fst (bounce p1 p2 v1 v2))
      (vsub v1 (along (vsub p1 p2) (vsub v1 v2))) /\
  veq (snd (bounce p1 p2 v1 v2))
      (vadd v2 (along (vsub p1 p2) (vsub v1 v2))).
Proof.
  intros F1 F2 F3 F4 N. now apply bounce_formula.
Qed.

(** X6.  Resolving a pair a second time from the same positions gives back the
    velocities it had. *)
Lemma bounce_twice (p1 p2 v1 v2 : vec) :
  vfin p1 -> vfin p2 -> vfin v1 -> vfin v2 -> ~ veq (vsub p1 p2) vzero ->
  let w := bounce p1 p2 v1 v2 in
  veq (fst (bounce p1 p2 (fst w) (snd w))) v1 /\
  veq (snd (bounce p1 p2 (fst w) (snd w))) v2.
Proof.
  intros F1 F2 F3 F4 N w.
  destruct (bounce_formula p1 p2 v1 v2 F1 F2 F3 F4 N) as [E1 E2].
  destruct (bounce_finite p1 p2 v1 v2 F1 F2 F3 F4 N) as [G1 G2].
  fold w in E1, E2, G1, G2.
  destruct (bounce_formula p1 p2 (fst w) (snd w) F1 F2 G1 G2 N) as [E3 E4].
  destruct w as [a b]. cbn [fst snd] in *.
  destruct (bounce p1 p2 a b) as [c d]. cbn [fst snd] in *.
  fin_vec F1. fin_vec F2. fin_vec F3. fin_vec F4. fin_vec G1. fin_vec G2.
  assert (D : ~ (x + - x0) * (x + - x0) + (y + - y0) * (y + - y0)
              + (z + - z0) * (z + - z0) == 0).
  { intros H. apply sumsq_zero in H. apply N. unfold veq; simpl. lra. }
  unfold along, veq, vadd, vsub, vscale, vmap, vmap2, dot in *.
  cbn [vx vy vz fsub fadd fneg fmul] in *.
  rewrite !(fdiv_fin _ _ D) in *. cbn [vx vy vz fsub fadd fneg fmul] in *.
  destruct c as [[c1| | |] [c2| | |] [c3| | |]];
    cbn [vx vy vz feq] in E3; try tauto.
  destruct d as [[d1| | |] [d2| | |] [d3| | |]];
    cbn [vx vy vz feq] in E4; try tauto.
  cbn [vx vy vz feq] in *.
  destruct E1 as (A1 & A2 & A3), E2 as (B1 & B2 & B3),
           E3 as (C1 & C2 & C3), E4 as (D1 & D2 & D3).
  rewrite C1, C2, C3, D1, D2, D3. rewrite A1, A2, A3, B1, B2, B3.
  revert D. generalize (x + - x0), (y + - y0), (z + - z0). intros nx ny nz D.
  repeat split; field; exact D.
Qed.

Lemma sample_pair :
  vfin pA /\ vfin pB /\ vfin vA /\ vfin vB /\ ~ veq (vsub pA pB) vzero.
Proof.
  repeat split; try exact I. intros (H & _). discriminate H.
Defined.

Lemma bounce_elastic_witness :
  (vfin pA /\ vfin pB /\ vfin vA /\ vfin vB /\ ~ veq (vsub pA pB) vzero) /\
  veq (fst (bounce pA pB vA vB)) (vsub vA (along (vsub pA pB) (vsub vA vB))) /\
  veq (snd (bounce pA pB vA vB)) (vadd vB (along (vsub pA pB) (vsub vA vB))).
Proof.
  split; [exact sample_pair|].
  destruct sample_pair as (F1 & F2 & F3 & F4 & N).
  exact (bounce_elastic pA pB vA vB F1 F2 F3 F4 N).
Defined.

Lemma bounce_reverses_normal_witness :
  (vfin pA /\ vfin pB /\ vfin vA /\ vfin vB /\ ~ veq (vsub pA pB) vzero) /\
  feq (dot (vsub pA pB)
           (vsub (fst (bounce pA pB vA vB)) (snd (bounce pA pB vA vB))))
      (fneg (dot (vsub pA pB) (vsub vA vB))).
Proof.
  split; [exact sample_pair|].
  destruct sample_pair as (F1 & F2 & F3 & F4 & N).
  exact (bounce_reverses_normal pA pB vA vB F1 F2 F3 F4 N).
Defined.

Lemma bounce_keeps_tangent_witness :
  (vfin pA /\ vfin pB /\ vfin vA /\ vfin vB /\ ~ veq (vsub pA pB) vzero) /\
  vfin across /\ feq (dot (vsub pA pB) across) (Fin 0) /\
  feq (dot across
           (vsub (fst (bounce pA pB vA vB)) (snd (bounce pA pB vA vB))))
      (dot across (vsub vA vB)).
Proof.
  split; [exact sample_pair|].
  destruct sample_pair as (F1 & F2 & F3 & F4 & N).
  assert (Ft : vfin across) by (repeat split).
  assert (T : feq (dot (vsub pA pB) across) (Fin 0)) by reflexivity.
  split; [exact Ft|]. split; [exact T|].
  exact (bounce_keeps_tangent pA pB vA vB F1 F2 F3 F4 N across Ft T).
Defined.

Lemma bounce_head_on_witness :
  (vfin pA /\ vfin pB /\ vfin (Vq (-3) 0 0) /\ vfin (Vq 3 0 0) /\
   ~ veq (vsub pA pB) vzero) /\
  veq (Vq (-3) 0 0) (vscale (Fin 2) (vsub pA pB)) /\
  veq (Vq 3 0 0) (vscale (Fin (-2)) (vsub pA pB)) /\
  veq (fst (bounce pA pB (Vq (-3) 0 0) (Vq 3 0 0))) (Vq 3 0 0) /\
  veq (snd (bounce pA pB (Vq (-3) 0 0) (Vq 3 0 0))) (Vq (-3) 0 0).
Proof.
  destruct sample_pair as (F1 & F2 & _ & _ & N).
  assert (F3 : vfin (Vq (-3) 0 0)) by (repeat split).
  assert (F4 : vfin (Vq 3 0 0)) by (repeat split).
  assert (A : veq (Vq (-3) 0 0) (vscale (Fin 2) (vsub pA pB)))
    by (repeat split; reflexivity).
  assert (B : veq (Vq 3 0 0) (vscale (Fin (-2)) (vsub pA pB)))
    by (repeat split; reflexivity).
  split; [repeat split; auto|]. split; [exact A|]. split; [exact B|].
  exact (bounce_head_on pA pB (Vq (-3) 0 0) (Vq 3 0 0) F1 F2 F3 F4 N 2 (-2) A B).
Defined.

Lemma bounce_twice_witness :
  (vfin pA /\ vfin pB /\ vfin vA /\ vfin vB /\ ~ veq (vsub pA pB) vzero) /\
  veq (fst (bounce pA pB (fst (bounce pA pB vA vB)) (snd (bounce pA pB vA vB))))
      vA /\
  veq (snd (bounce pA pB (fst (bounce pA pB vA vB)) (snd (bounce pA pB vA vB))))
      vB.
Proof.
  split; [exact sample_pair|].
  destruct sample_pair as (F1 & F2 & F3 & F4 & N).
  exact (bounce_twice pA pB vA vB F1 F2 F3 F4 N).
Defined.

(** ** What one resolution writes *)

Lemma row_upd (i j : nat) (x : vec) (l : list vec) :
  row (upd i x l) j
  = if (Nat.eqb i j && Nat.ltb i (length l))%bool then x else row l j.
Proof.
  destruct (Nat.eqb_spec i j) as [->|Ne]; cbn [andb].
  - destruct (Nat.ltb_spec j (length l)) as [L|L].
    + now apply row_upd_same.
    + unfold row. revert j L. induction l as [|h t IH]; intros [|j] L;
        simpl in *; auto; try lia. apply IH. lia.
  - now apply row_upd_other.
Qed.

Lemma upd_comm {A : Type} (i j : nat) (x y : A) (l : list A) :
  i <> j -> upd i x (upd j y l) = upd j y (upd i x l).
Proof.
  revert i j. induction l as [|h t IH]; intros [|i] [|j] Ne; simpl; auto;
    try congruence. f_equal. apply IH. congruence.
Qed.

(** X8.  The resolution of the pair [(i1, i2)] writes the rows [i1] and [i2] of
    the two arrays and no other: the velocities of [bounce], and the two
    positions moved on by the new velocity times [dt]. *)
Theorem resolve_writes_pair (dt : Q) (p v : list vec) (i1 i2 : nat) :
  (i1 < i2)%nat -> (i2 < length p)%nat -> (i2 < length v)%nat ->
  let b := bounce (row p i1) (row p i2) (row v i1) (row v i2) in
  let e' := resolve dt (p, v) (i1, i2) in
  row (fst e') i1 = vadd (row p i1) (vtimes (fst b) (Fin dt)) /\
  row (fst e') i2 = vadd (row p i2) (vtimes (snd b) (Fin dt)) /\
  row (snd e') i1 = fst b /\ row (snd e') i2 = snd b /\
  (forall k, k <> i1 -> k <> i2 ->
             row (fst e') k = row p k /\ row (snd e') k = row v k) /\
  length (fst e') = length p /\ length (snd e') = length v.
Proof.
  intros H12 Hp Hv b e'. subst e'. unfold resolve. fold b.
  destruct b as [w1 w2]. cbn [fst snd].
  rewrite !row_upd, !upd_length.
  assert (E12 : Nat.eqb i1 i2 = false) by (apply Nat.eqb_neq; lia).
  assert (E21 : Nat.eqb i2 i1 = false) by (apply Nat.eqb_neq; lia).
  assert (L1p : Nat.ltb i1 (length p) = true) by (apply Nat.ltb_lt; lia).
  assert (L2p : Nat.ltb i2 (length p) = true) by (apply Nat.ltb_lt; lia).
  assert (L1v : Nat.ltb i1 (length v) = true) by (apply Nat.ltb_lt; lia).
  assert (L2v : Nat.ltb i2 (length v) = true) by (apply Nat.ltb_lt; lia).
  rewrite !Nat.eqb_refl, ?E12, ?E21, ?L1p, ?L2p, ?L1v, ?L2v. cbn [andb].
  repeat split; try reflexivity.
  - rewrite !row_upd_other by congruence. reflexivity.
  - rewrite !row_upd_other by congruence. reflexivity.
Qed.

Lemma resolve_writes_pair_witness :
  (0 < 1)%nat /\ (1 < length (fst two_pairs))%nat /\
  (1 < length (snd two_pairs))%nat /\
  let p := fst two_pairs in
  let v := snd two_pairs in
  let b := bounce (row p 0) (row p 1) (row v 0) (row v 1) in
  let e' := resolve 1 (p, v) (0, 1)%nat in
  row (fst e') 0 = vadd (row p 0) (vtimes (fst b) (Fin 1)) /\
  row (fst e') 1 = vadd (row p 1) (vtimes (snd b) (Fin 1)) /\
  row (snd e') 0 = fst b /\ row (snd e') 1 = snd b /\
  (forall k, k <> 0%nat -> k <> 1%nat ->
             row (fst e') k = row p k /\ row (snd e') k = row v k) /\
  length (fst e') = length p /\ length (snd e') = length v.
Proof.
  assert (A : (0 < 1)%nat) by lia.
  assert (B : (1 < length (fst two_pairs))%nat) by (simpl; lia).
  assert (C : (1 < length (snd two_pairs))%nat) by (simpl; lia).
  split; [exact A|]. split; [exact B|]. split; [exact C|].
  exact (resolve_writes_pair 1 (fst two_pairs) (snd two_pairs) 0 1 A B C).
Defined.

Lemma resolve_unfold (dt : Q) (p v : list vec) (i j : nat) :
  resolve dt (p, v) (i, j)
  = let b := bounce (row p i) (row p j) (row v i) (row v j) in
    let v' := upd j (snd b) (upd i (fst b) v) in
    let p' := upd i (vadd (row p i) (vtimes (row v' i) (Fin dt))) p in
    (upd j (vadd (row p' j) (vtimes (row v' j) (Fin dt))) p', v').
Proof.
  unfold resolve. cbv zeta. destruct (bounce _ _ _ _) as [a b]. reflexivity.
Qed.

(** X9.  Two pairs that share no particle can be resolved in either order. *)
Theorem resolve_disjoint_commute (dt : Q) (e : ensemble) (i j k l : nat) :
  i <> k -> i <> l -> j <> k -> j <> l ->
  resolve dt (resolve dt e (i, j)) (k, l)
  = resolve dt (resolve dt e (k, l)) (i, j).
Proof.
  intros Hik Hil Hjk Hjl. destruct e as [p v].
  rewrite !resolve_unfold. cbv zeta.
  rewrite !row_upd, !upd_length.
  assert (Eik : Nat.eqb i k = false) by now apply Nat.eqb_neq.
  assert (Eil : Nat.eqb i l = false) by now apply Nat.eqb_neq.
  assert (Ejk : Nat.eqb j k = false) by now apply Nat.eqb_neq.
  assert (Ejl : Nat.eqb j l = false) by now apply Nat.eqb_neq.
  assert (Eki : Nat.eqb k i = false) by (apply Nat.eqb_neq; congruence).
  assert (Eli : Nat.eqb l i = false) by (apply Nat.eqb_neq; congruence).
  assert (Ekj : Nat.eqb k j = false) by (apply Nat.eqb_neq; congruence).
  assert (Elj : Nat.eqb l j = false) by (apply Nat.eqb_neq; congruence).
  rewrite ?Eik, ?Eil, ?Ejk, ?Ejl, ?Eki, ?Eli, ?Ekj, ?Elj. cbn [andb].
  f_equal.
  - rewrite (upd_comm i l), (upd_comm i k), (upd_comm j l), (upd_comm j k)
      by congruence. reflexivity.
  - rewrite (upd_comm i l), (upd_comm i k), (upd_comm j l), (upd_comm j k)
      by congruence. reflexivity.
Qed.

Lemma resolve_disjoint_commute_witness :
  (0 <> 2 /\ 0 <> 3 /\ 1 <> 2 /\ 1 <> 3)%nat /\
  resolve 1 (resolve 1 two_pairs (0, 1)%nat) (2, 3)%nat
  = resolve 1 (resolve 1 two_pairs (2, 3)%nat) (0, 1)%nat.
Proof.
  assert (A : (0 <> 2)%nat) by lia. assert (B : (0 <> 3)%nat) by lia.
  assert (C : (1 <> 2)%nat) by lia. assert (D : (1 <> 3)%nat) by lia.
  split; [repeat split; assumption|].
  exact (resolve_disjoint_commute 1 two_pairs 0 1 2 3 A B C D).
Defined.

(** ** The wall loop *)

Lemma upd_row (i : nat) (l : list vec) : upd i (row l i) l = l.
Proof.
  unfold row. revert i. induction l as [|h t IH]; intros [|i]; simpl; auto.
  now rewrite IH.
Qed.

Lemma wall_loop_rows (r side : Q) (n : nat) (p v : list vec) :
  (n <= length p)%nat -> length v = length p ->
  exists p' v',
    wall_loop r side (seq 0 n) (p, v) = Done (p', v') /\
    length p' = length p /\ length v' = length v /\
    (forall i, (i < n)%nat ->
       (row p' i, row v' i) = wall_row r side (row p i) (row v i)) /\
    (forall i, (n <= i)%nat -> row p' i = row p i /\ row v' i = row v i).
Proof.
  intros H L.
  assert (G : forall k a p v,
    (a + k <= length p)%nat -> length v = length p ->
    exists p' v',
      wall_loop r side (seq a k) (p, v) = Done (p', v') /\
      length p' = length p /\ length v' = length v /\
      (forall i, (a <= i < a + k)%nat ->
         (row p' i, row v' i) = wall_row r side (row p i) (row v i)) /\
      (forall i, ~ (a <= i < a + k)%nat ->
         row p' i = row p i /\ row v' i = row v i)).
  { clear. induction k as [|k IH]; intros a p v H L.
    - exists p, v. simpl. repeat split; auto. intros i Hi. lia.
    - cbn [seq wall_loop].
      assert (Lt : Nat.ltb a (length p) = true) by (apply Nat.ltb_lt; lia).
      rewrite Lt.
      destruct (wall_row r side (row p a) (row v a)) as [x u] eqn:W.
      destruct (IH (S a) (upd a x p) (upd a u v))
        as (p' & v' & E & Lp & Lv & In_ & Out).
      { rewrite upd_length. lia. }
      { now rewrite !upd_length. }
      exists p', v'. rewrite E. rewrite upd_length in Lp, Lv.
      split; [reflexivity|]. split; [exact Lp|]. split; [exact Lv|]. split.
      + intros i Hi. destruct (Nat.eq_dec i a) as [->|Ne].
        * destruct (Out a) as [-> ->]; [lia|].
          rewrite !row_upd_same by lia. now rewrite W.
        * rewrite In_ by lia. now rewrite !row_upd_other by congruence.
      + intros i Hi. destruct (Out i) as [-> ->]; [lia|].
        split; apply row_upd_other; lia. }
  destruct (G n 0%nat p v H L) as (p' & v' & E & Lp & Lv & In_ & Out).
  exists p', v'. split; [exact E|]. split; [exact Lp|]. split; [exact Lv|].
  split; intros i Hi; [apply In_|apply Out]; lia.
Qed.

(** X12.  The loop of line 173 treats each of the first [n] particles on its own:
    row [i] of both arrays becomes what the six tests make of it, and the
    rows beyond [n] are left alone. *)
Theorem wall_loop_rowwise (r side : Q) (n : nat) (p v : list vec) :
  (n <= length p)%nat -> length v = length p ->
  exists p' v',
    wall_loop r side (seq 0 n) (p, v) = Done (p', v') /\
    length p' = length p /\ length v' = length v /\
    (forall i, (i < n)%nat ->
       (row p' i, row v' i) = wall_row r side (row p i) (row v i)) /\
    (forall i, (n <= i)%nat -> row p' i = row p i /\ row v' i = row v i).
Proof.
  intros H L. now apply wall_loop_rows.
Qed.

Lemma wall_loop_rowwise_witness :
  (2 <= length (fst two_pairs))%nat /\
  length (snd two_pairs) = length (fst two_pairs) /\
  exists p' v',
    wall_loop 1 10 (seq 0 2) (fst two_pairs, snd two_pairs) = Done (p', v') /\
    length p' = length (fst two_pairs) /\
    length v' = length (snd two_pairs) /\
    (forall i, (i < 2)%nat ->
       (row p' i, row v' i)
       = wall_row 1 10 (row (fst two_pairs) i) (row (snd two_pairs) i)) /\
    (forall i, (2 <= i)%nat ->
       row p' i = row (fst two_pairs) i /\ row v' i = row (snd two_pairs) i).
Proof.
  assert (A : (2 <= length (fst two_pairs))%nat) by (simpl; lia).
  assert (B : length (snd two_pairs) = length (fst two_pairs)) by reflexivity.
  split; [exact A|]. split; [exact B|].
  exact (wall_loop_rowwise 1 10 2 (fst two_pairs) (snd two_pairs) A B).
Defined.

Lemma wall_axis_speed (r side : Q) (x : fnum) (q : Q) :
  exists q', snd (wall_axis r side (x, Fin q)) = Fin q' /\ q' * q' == q * q.
Proof.
  unfold wall_axis.
  destruct (flt (fsub x (Fin r)) (Fin 0));
    match goal with
    | |- context [if ?c then _ else _] => destruct c
    end; cbn [snd fneg]; eexists; (split; [reflexivity|ring]).
Qed.

(** X15.  A wall changes the sign of velocity components and nothing else of a
    velocity: the speed of the particle is the same after the six tests. *)
Theorem wall_row_keeps_speed (r side : Q) (x u : vec) :
  vfin u -> feq (normsq (snd (wall_row r side x u))) (normsq u).
Proof.
  intros F. fin_vec F. unfold wall_row. cbn [vx vy vz].
  destruct (wall_axis_speed r side (vx x) x0) as (a & Ea & Ha).
  destruct (wall_axis_speed r side (vy x) y) as (b & Eb & Hb).
  destruct (wall_axis_speed r side (vz x) z) as (c & Ec & Hc).
  destruct (wall_axis r side (vx x, Fin x0)) as [x0' u0].
  destruct (wall_axis r side (vy x, Fin y)) as [x1' u1].
  destruct (wall_axis r side (vz x, Fin z)) as [x2' u2].
  cbn [snd] in *. subst. unfold normsq, dot. cbn [vx vy vz fmul fadd feq].
  rewrite Ha, Hb, Hc. reflexivity.
Qed.

Lemma wall_row_keeps_speed_witness :
  vfin (Vq 3 (-4) 0) /\
  feq (normsq (snd (wall_row 1 10 (Vq 11 0 5) (Vq 3 (-4) 0))))
      (normsq (Vq 3 (-4) 0)).
Proof.
  assert (F : vfin (Vq 3 (-4) 0)) by (repeat split).
  split; [exact F|].
  exact (wall_row_keeps_speed 1 10 (Vq 11 0 5) (Vq 3 (-4) 0) F).
Defined.

Lemma wall_row_fixed (r side : Q) (x u : vec) :
  vcontained r side x -> wall_row r side x u = (x, u).
Proof.
  assert (A : forall c w, contained r side c ->
                          wall_axis r side (c, w) = (c, w)).
  { intros c w [L U]. unfold wall_axis.
    destruct c as [q| | |]; simpl in L, U; try tauto.
    cbn [fsub fadd fneg flt].
    assert (E1 : Qltb (q + - r) 0 = false) by (apply Qltb_ge; lra).
    rewrite E1. cbn [fadd flt].
    assert (E2 : Qltb side (q + r) = false) by (apply Qltb_ge; lra).
    now rewrite E2. }
  intros (Hx & Hy & Hz). unfold wall_row.
  rewrite (A _ _ Hx), (A _ _ Hy), (A _ _ Hz). now destruct x, u.
Qed.

(** X14.  A particle within the walls on every axis passes the six tests
    untouched. *)
Theorem wall_row_inside (r side : Q) (x u : vec) :
  vcontained r side x -> wall_row r side x u = (x, u).
Proof.
  apply wall_row_fixed.
Qed.

Lemma wall_row_inside_witness :
  vcontained 1 10 (Vq 5 1 9) /\
  wall_row 1 10 (Vq 5 1 9) (Vq 1 (-1) 1) = (Vq 5 1 9, Vq 1 (-1) 1).
Proof.
  assert (C : vcontained 1 10 (Vq 5 1 9)).
  { repeat split; simpl; discriminate. }
  split; [exact C|].
  exact (wall_row_inside 1 10 (Vq 5 1 9) (Vq 1 (-1) 1) C).
Defined.

(** X13.  In a chamber wider than [2 * 1.01 * radius], a coordinate that has
    passed the near wall is put at [1.01 * radius] and one that has passed
    the far wall at [sideLength - 1.01 * radius]; in both cases the velocity
    component changes sign once. *)
Theorem wall_axis_reflects (r side q : Q) (u : fnum) :
  0 < r -> 2 * 1.01 * r < side -> q < r \/ side - r < q ->
  wall_axis r side (Fin q, u)
  = (Fin (if Qltb q r then r * 1.01 else side - r * 1.01), fneg u).
Proof.
  intros Hr Hs H. unfold wall_axis. cbn [fsub fadd fneg flt].
  destruct H as [H|H].
  - assert (E0 : Qltb q r = true) by (apply Qltb_lt; lra).
    assert (E1 : Qltb (q + - r) 0 = true) by (apply Qltb_lt; lra).
    rewrite E0, E1. cbn [fadd flt].
    assert (E2 : Qltb side (r * 1.01 + r) = false) by (apply Qltb_ge; lra).
    now rewrite E2.
  - assert (E0 : Qltb q r = false) by (apply Qltb_ge; lra).
    assert (E1 : Qltb (q + - r) 0 = false) by (apply Qltb_ge; lra).
    rewrite E0, E1. cbn [fadd flt].
    assert (E2 : Qltb side (q + r) = true) by (apply Qltb_lt; lra).
    now rewrite E2.
Qed.

Lemma wall_axis_reflects_witness :
  0 < 1 /\ 2 * 1.01 * 1 < 10 /\ (11 < 1 \/ 10 - 1 < 11) /\
  wall_axis 1 10 (Fin 11, Fin 3)
  = (Fin (if Qltb 11 1 then 1 * 1.01 else 10 - 1 * 1.01), fneg (Fin 3)).
Proof.
  assert (A : 0 < 1) by reflexivity.
  assert (B : 2 * 1.01 * 1 < 10) by reflexivity.
  assert (C : 11 < 1 \/ 10 - 1 < 11) by (right; reflexivity).
  split; [exact A|]. split; [exact B|]. split; [exact C|].
  exact (wall_axis_reflects 1 10 11 (Fin 3) A B C).
Defined.

(** ** [Step] as a whole *)

Lemma Step_contains_numbers_witness :
  well_shaped chain /\ 0 < radius chain /\
  2 * 1.01 * radius chain < sideLength chain /\
  exists s',
    Step 1 chain = Done s' /\
    forall i, (i < length (pos chain))%nat ->
              contained_or_nan (radius chain) (sideLength chain)
                               (row (pos s') i).
Proof.
  assert (W : well_shaped chain) by (split; reflexivity).
  assert (R : 0 < radius chain) by reflexivity.
  assert (S : 2 * 1.01 * radius chain < sideLength chain) by reflexivity.
  split; [exact W|]. split; [exact R|]. split; [exact S|].
  destruct (Step_returns 1 chain W) as (e' & _ & E & _).
  eexists. split; [exact E|].
  exact (Step_contains_numbers 1 chain _ W R S E).
Defined.

(** X17.  [Step] keeps the object well shaped: it returns with [partCount] rows
    in both arrays, and changes nothing but the two arrays. *)
Theorem Step_keeps_shape (dt : Q) (s : Sim) :
  well_shaped s ->
  exists s',
    Step dt s = Done s' /\ well_shaped s' /\
    partCount s' = partCount s /\ radius s' = radius s /\
    sideLength s' = sideLength s /\ mass s' = mass s /\
    partBelonging s' = partBelonging s.
Proof.
  intros W. destruct (Step_returns dt s W) as (e' & _ & E & Lp & Lv & _).
  eexists. split; [exact E|]. destruct W as [Wn Wv].
  unfold well_shaped. cbn [set_arrays pos vel partCount radius sideLength
                           mass partBelonging].
  repeat split; congruence.
Qed.

Lemma Step_keeps_shape_witness :
  well_shaped chain /\
  exists s',
    Step 1 chain = Done s' /\ well_shaped s' /\
    partCount s' = partCount chain /\ radius s' = radius chain /\
    sideLength s' = sideLength chain /\ mass s' = mass chain /\
    partBelonging s' = partBelonging chain.
Proof.
  assert (W : well_shaped chain) by (split; reflexivity).
  split; [exact W|]. exact (Step_keeps_shape 1 chain W).
Defined.

Lemma wall_loop_inside (r side : Q) (idx : list nat) (p v : list vec) :
  Forall (vcontained r side) p ->
  Forall (fun i => (i < length p)%nat) idx ->
  wall_loop r side idx (p, v) = Done (p, v).
Proof.
  intros C. induction idx as [|i rest IH]; intros H; [reflexivity|].
  inversion H as [|? ? Hi Hrest]; subst. cbn [wall_loop].
  apply Nat.ltb_lt in Hi. rewrite Hi. apply Nat.ltb_lt in Hi.
  assert (Ci : vcontained r side (row p i)).
  { rewrite Forall_forall in C. apply C. unfold row. now apply nth_In. }
  rewrite (wall_row_fixed r side _ (row v i) Ci), !upd_row. now apply IH.
Qed.

(** X18.  When, after the free flight, no two particles are within two radii of
    each other and every particle is within the walls, [Step] is the free
    flight alone: positions [pos + vel * dt], velocities unchanged. *)
Theorem Step_free_flight (dt : Q) (s : Sim) :
  well_shaped s ->
  colliding_pairs (radius s) (advance dt (pos s) (vel s)) = [] ->
  Forall (vcontained (radius s) (sideLength s)) (advance dt (pos s) (vel s)) ->
  Step dt s = Done (set_arrays s (advance dt (pos s) (vel s)) (vel s)).
Proof.
  intros [Wn Wv] Hp Hc. unfold Step. rewrite Wv, Nat.eqb_refl. cbn [negb].
  rewrite Hp. cbn [resolve_all fold_left].
  rewrite wall_loop_inside; [reflexivity|exact Hc|].
  apply Forall_forall. intros i Hi. apply in_seq in Hi.
  rewrite advance_length by exact Wv. lia.
Qed.

Lemma Step_free_flight_witness :
  well_shaped single /\
  colliding_pairs (radius single) (advance 1 (pos single) (vel single)) = [] /\
  Forall (vcontained (radius single) (sideLength single))
         (advance 1 (pos single) (vel single)) /\
  Step 1 single
  = Done (set_arrays single (advance 1 (pos single) (vel single)) (vel single)).
Proof.
  assert (W : well_shaped single) by (split; reflexivity).
  assert (P : colliding_pairs (radius single)
                (advance 1 (pos single) (vel single)) = []) by reflexivity.
  assert (C : Forall (vcontained (radius single) (sideLength single))
                     (advance 1 (pos single) (vel single))).
  { repeat constructor; simpl; discriminate. }
  split; [exact W|]. split; [exact P|]. split; [exact C|].
  exact (Step_free_flight 1 single W P C).
Defined.

Lemma wall_loop_app (r side : Q) (l1 l2 : list nat) :
  forall e, wall_loop r side (l1 ++ l2) e
            = (e' <- wall_loop r side l1 e ;; wall_loop r side l2 e').
Proof.
  induction l1 as [|i l1 IH]; intros [p v]; [reflexivity|].
  cbn [app wall_loop]. destruct (Nat.ltb i (length p)); [|reflexivity].
  destruct (wall_row r side (row p i) (row v i)) as [x u]. apply IH.
Qed.

(** X19.  With more particles counted than the arrays have rows, [Step] raises
    [IndexError] in the wall loop, after the free flight, the collisions
    and the wall tests of the rows that exist have been carried out: the
    arrays it leaves are those of the wall loop over the existing rows. *)
Theorem Step_index_error (dt : Q) (s : Sim) :
  length (vel s) = length (pos s) ->
  (length (pos s) < Z.to_nat (partCount s))%nat ->
  exists e,
    wall_loop (radius s) (sideLength s) (seq 0 (length (pos s)))
      (resolve_all dt (colliding_pairs (radius s) (fst (after_flight dt s)))
                   (after_flight dt s)) = Done e /\
    Step dt s = Raised IndexError (Some e).
Proof.
  intros Lv Lt. unfold Step, after_flight. cbn [fst].
  rewrite Lv, Nat.eqb_refl. cbn [negb].
  set (p := advance dt (pos s) (vel s)).
  set (e := resolve_all dt (colliding_pairs (radius s) p) (p, vel s)).
  assert (Lp : length (fst e) = length (pos s)).
  { unfold e. destruct (resolve_all_lengths dt (colliding_pairs (radius s) p)
                                            (p, vel s)) as [-> _].
    cbn [fst]. now apply advance_length. }
  assert (Le : length (snd e) = length (fst e)).
  { rewrite Lp. unfold e.
    now destruct (resolve_all_lengths dt (colliding_pairs (radius s) p)
                                      (p, vel s)) as [_ ->]. }
  set (n := length (pos s)) in *.
  replace (Z.to_nat (partCount s)) with (n + (Z.to_nat (partCount s) - n))%nat
    by lia.
  rewrite seq_app, wall_loop_app. destruct e as [pe ve]. cbn [fst snd] in *.
  destruct (wall_loop_rows (radius s) (sideLength s) n pe ve)
    as (p' & v' & E & Lp' & _); [lia|exact Le|].
  rewrite E. cbn [bind]. exists (p', v'). split; [reflexivity|].
  destruct (Z.to_nat (partCount s) - n)%nat as [|k] eqn:K; [lia|].
  cbn [seq wall_loop Nat.add].
  assert (F : Nat.ltb n (length p') = false) by (apply Nat.ltb_ge; lia).
  now rewrite F.
Qed.

Lemma Step_index_error_witness :
  length (vel short_arrays) = length (pos short_arrays) /\
  (length (pos short_arrays) < Z.to_nat (partCount short_arrays))%nat /\
  exists e,
    wall_loop (radius short_arrays) (sideLength short_arrays)
      (seq 0 (length (pos short_arrays)))
      (resolve_all 1
         (colliding_pairs (radius short_arrays)
                          (fst (after_flight 1 short_arrays)))
         (after_flight 1 short_arrays)) = Done e /\
    Step 1 short_arrays = Raised IndexError (Some e).
Proof.
  assert (A : length (vel short_arrays) = length (pos short_arrays))
    by reflexivity.
  assert (B : (length (pos short_arrays)
               < Z.to_nat (partCount short_arrays))%nat) by (simpl; lia).
  split; [exact A|]. split; [exact B|].
  exact (Step_index_error 1 short_arrays A B).
Defined.

(** ** The detection *)

Lemma sorted_app {X : Type} (R : X -> X -> Prop) (l1 l2 : list X) :
  StronglySorted R l1 -> StronglySorted R l2 ->
  (forall x y, In x l1 -> In y l2 -> R x y) ->
  StronglySorted R (l1 ++ l2).
Proof.
  intros H1 H2 H. induction H1 as [|a l S IH F]; [exact H2|].
  cbn [app]. constructor.
  - apply IH. intros x y Hx Hy. apply H; [now right|exact Hy].
  - apply Forall_app. split; [exact F|].
    apply Forall_forall. intros y Hy. apply H; [now left|exact Hy].
Qed.

Lemma sorted_flat_map_seq {X : Type} (R : X -> X -> Prop) (f : nat -> list X) :
  (forall i, StronglySorted R (f i)) ->
  (forall i j x y, (i < j)%nat -> In x (f i) -> In y (f j) -> R x y) ->
  forall k a, StronglySorted R (flat_map f (seq a k)).
Proof.
  intros Hs Hc. induction k as [|k IH]; intros a; [constructor|].
  cbn [seq flat_map]. apply sorted_app; [apply Hs|apply IH|].
  intros x y Hx Hy. apply in_flat_map in Hy. destruct Hy as (j & Hj & Hy).
  apply in_seq in Hj. apply (Hc a j); auto. lia.
Qed.

Lemma sorted_filter {X : Type} (R : X -> X -> Prop) (f : X -> bool)
  (l : list X) :
  StronglySorted R l -> StronglySorted R (filter f l).
Proof.
  induction 1 as [|a l S IH F]; [constructor|].
  cbn [filter]. destruct (f a); [|exact IH]. constructor; [exact IH|].
  rewrite Forall_forall in *. intros x Hx. apply filter_In in Hx. now apply F.
Qed.

Lemma sorted_NoDup {X : Type} (R : X -> X -> Prop) (l : list X) :
  (forall x, ~ R x x) -> StronglySorted R l -> NoDup l.
Proof.
  intros Irr. induction 1 as [|a l S IH F]; constructor; [|exact IH].
  intros Hin. rewrite Forall_forall in F. exact (Irr a (F a Hin)).
Qed.

Lemma where_close_In (r : Q) (p : list vec) (i j : nat) :
  In (i, j) (where_close r p) <->
  (i < length p)%nat /\ (j < length p)%nat /\
  sqrt_lt (distances2 p i j) (2 * r) = true.
Proof.
  unfold where_close. rewrite in_flat_map. split.
  - intros (a & Ha & H). apply in_flat_map in H. destruct H as (b & Hb & H).
    apply in_seq in Ha, Hb.
    destruct (sqrt_lt (distances2 p a b) (2 * r)) eqn:E; [|contradiction].
    destruct H as [H|[]]. inversion H; subst. repeat split; auto; lia.
  - intros (Hi & Hj & E). exists i. split; [apply in_seq; lia|].
    apply in_flat_map. exists j. split; [apply in_seq; lia|].
    rewrite E. now left.
Qed.

Lemma where_close_sorted (r : Q) (p : list vec) :
  StronglySorted lex_lt (where_close r p).
Proof.
  unfold where_close. apply sorted_flat_map_seq.
  - intros i. apply sorted_flat_map_seq.
    + intros j. destruct (sqrt_lt _ _); repeat constructor.
    + intros a b x y Hab Hx Hy.
      destruct (sqrt_lt (distances2 p i a) (2 * r)); [|contradiction].
      destruct (sqrt_lt (distances2 p i b) (2 * r)); [|contradiction].
      destruct Hx as [<-|[]], Hy as [<-|[]]. right. cbn [fst snd]. auto.
  - intros a b x y Hab Hx Hy.
    apply in_flat_map in Hx, Hy.
    destruct Hx as (c & _ & Hx), Hy as (d & _ & Hy).
    destruct (sqrt_lt (distances2 p a c) (2 * r)); [|contradiction].
    destruct (sqrt_lt (distances2 p b d) (2 * r)); [|contradiction].
    destruct Hx as [<-|[]], Hy as [<-|[]]. left. exact Hab.
Qed.

Lemma colliding_pairs_In (r : Q) (p : list vec) (i j : nat) :
  In (i, j) (colliding_pairs r p) <->
  (i < j < length p)%nat /\
  sqrt_lt (sqdist (row p i) (row p j)) (2 * r) = true.
Proof.
  unfold colliding_pairs. rewrite filter_In, where_close_In.
  cbn [fst snd]. rewrite Nat.ltb_lt. unfold distances2. split.
  - intros ((Hi & Hj & E) & L).
    assert (N : Nat.eqb i j = false) by (apply Nat.eqb_neq; lia).
    rewrite N in E. auto.
  - intros ((L & Hj) & E).
    assert (N : Nat.eqb i j = false) by (apply Nat.eqb_neq; lia).
    rewrite N. repeat split; auto; lia.
Qed.

(** X10.  The collision loop is given exactly the pairs [i < j] of rows whose
    centers are less than two radii apart, each once, in the order of [i]
    and then of [j]. *)
Theorem colliding_pairs_exact (r : Q) (p : list vec) :
  (forall i j,
      In (i, j) (colliding_pairs r p) <->
      (i < j < length p)%nat /\
      sqrt_lt (sqdist (row p i) (row p j)) (2 * r) = true) /\
  NoDup (colliding_pairs r p) /\
  StronglySorted lex_lt (colliding_pairs r p).
Proof.
  assert (S : StronglySorted lex_lt (colliding_pairs r p))
    by apply sorted_filter, where_close_sorted.
  split; [apply colliding_pairs_In|]. split; [|exact S].
  apply (sorted_NoDup lex_lt); [|exact S].
  intros x [H|[_ H]]; lia.
Qed.

(** X11.  With a radius that is not positive no pair is ever selected: the
    ensemble never collides. *)
Theorem no_pairs_without_radius (r : Q) (p : list vec) :
  r <= 0 -> colliding_pairs r p = [].
Proof.
  intros Hr. destruct (colliding_pairs r p) as [|[i j] rest] eqn:E;
    [reflexivity|exfalso].
  assert (H : In (i, j) (colliding_pairs r p)) by (rewrite E; now left).
  apply colliding_pairs_In in H. destruct H as [_ H].
  unfold sqrt_lt in H. destruct (sqdist _ _); try discriminate.
  apply andb_prop in H. destruct H as [H _]. apply Qltb_lt in H. lra.
Qed.

Lemma no_pairs_without_radius_witness :
  0 <= 0 /\ colliding_pairs 0 (fst two_pairs) = [].
Proof.
  assert (H : 0 <= 0) by discriminate.
  split; [exact H|]. exact (no_pairs_without_radius 0 (fst two_pairs) H).
Defined.

(** ** The constructor, case by case *)

Section Wrapped.

Variables (s : Sim) (rnd : nat -> Q).
Hypothesis side1_pos : (0 < cubicParts1 s)%Z.
Hypothesis side2 : cubicParts2 s = (cubicParts1 s ^ 2)%Z.

Local Abbreviation m := (cubicParts1 s).
Local Abbreviation cells := (Z.to_nat (cubicParts1 s ^ 3)).
Local Abbreviation dists :=
  (linspace (radius s * 5) (sideLength s - radius s * 5) (cubicParts1 s)).

Lemma cell_of_range (i : nat) : (0 <= cell_of s i < m ^ 3)%Z.
Proof.
  unfold cell_of. apply Z.mod_pos_bound. apply Z.pow_pos_nonneg; lia.
Qed.

(** Lines 79 to 82 of any iteration: the particle is on the lattice. *)
Lemma place_reaches_table (i : nat) (p : list vec) (tbl : option table) :
  place s dists rnd i p tbl
  = match tbl with
    | None => Raised AttributeError (Some (upd i (spawn s rnd i) p, vel s))
    | Some t =>
        match set_cell t (cell_of s i) 6 (inject_Z (Z.of_nat i)) with
        | Some t' => Done (upd i (spawn s rnd i) p, Some t')
        | None => Raised IndexError (Some (upd i (spawn s rnd i) p, vel s))
        end
    end.
Proof.
  pose proof (cell_of_range i) as I.
  assert (P3 : (0 < m ^ 3)%Z) by (apply Z.pow_pos_nonneg; lia).
  assert (P2 : (0 < m ^ 2)%Z) by (apply Z.pow_pos_nonneg; lia).
  destruct (grid_indices m (cell_of s i) side1_pos I) as (X & Y & Z_).
  unfold place, pmod, pfloordiv, lookup. rewrite side2.
  assert (N3 : (m ^ 3 =? 0)%Z = false) by (apply Z.eqb_neq; lia).
  assert (N2 : (m ^ 2 =? 0)%Z = false) by (apply Z.eqb_neq; lia).
  assert (N1 : (m =? 0)%Z = false) by (apply Z.eqb_neq; lia).
  rewrite N3, N2, N1. cbn [bind]. fold (cell_of s i).
  rewrite (linspace_index _ _ m side1_pos _ X). cbn [bind].
  rewrite (linspace_index _ _ m side1_pos _ Y). cbn [bind].
  rewrite (linspace_index _ _ m side1_pos _ Z_). cbn [bind].
  reflexivity.
Qed.

Lemma place_wrapped (i : nat) (p : list vec) (t : table) :
  table_ok cells t ->
  exists t',
    place s dists rnd i p (Some t) = Done (upd i (spawn s rnd i) p, Some t')
    /\ table_ok cells t'.
Proof.
  intros T. pose proof (cell_of_range i) as I.
  destruct (set_cell_ok cells (Z.to_nat (cell_of s i))
              (inject_Z (Z.of_nat i)) t T) as (t' & E & T'); [lia|].
  rewrite Z2Nat.id in E by lia.
  exists t'. split; [|exact T']. rewrite place_reaches_table. now rewrite E.
Qed.

Lemma place_loop_wrapped (k : nat) :
  forall (a : nat) (p : list vec) (t : table),
    (a + k <= length p)%nat -> table_ok cells t ->
    exists p' t',
      place_loop s dists rnd (seq a k) p (Some t) = Done (p', Some t') /\
      length p' = length p /\ table_ok cells t' /\
      (forall i, (a <= i < a + k)%nat -> row p' i = spawn s rnd i) /\
      (forall i, ~ (a <= i < a + k)%nat -> row p' i = row p i).
Proof.
  induction k as [|k IH]; intros a p t H T.
  - exists p, t. simpl. split; [reflexivity|]. split; [reflexivity|].
    split; [exact T|]. split; [intros i Hi; lia|reflexivity].
  - cbn [seq place_loop].
    destruct (place_wrapped a p t T) as (t1 & E & T1).
    rewrite E. cbn [bind fst snd].
    destruct (IH (S a) (upd a (spawn s rnd a) p) t1)
      as (p' & t' & E' & Lp & T' & In_ & Out); [|exact T1|].
    { rewrite upd_length. lia. }
    exists p', t'. rewrite upd_length in Lp.
    split; [exact E'|]. split; [exact Lp|]. split; [exact T'|]. split.
    + intros i Hi. destruct (Nat.eq_dec i a) as [->|Ne].
      * rewrite Out by lia. apply row_upd_same. lia.
      * apply In_. lia.
    + intros i Hi. rewrite Out by lia. apply row_upd_other. lia.
Qed.

End Wrapped.

Lemma SetParticles_wrapped (s : Sim) (rnd uni : nat -> Q) (t : table) :
  (0 < partCount s)%Z ->
  cubicParts1 s = floor_cbrt (partCount s) ->
  cubicParts2 s = (cubicParts1 s ^ 2)%Z ->
  partBelonging s = Some t ->
  table_ok (Z.to_nat (cubicParts1 s ^ 3)) t ->
  exists s',
    SetParticles s rnd uni = Done s' /\
    length (pos s') = Z.to_nat (partCount s) /\
    (forall i, (i < Z.to_nat (partCount s))%nat ->
               row (pos s') i = spawn s rnd i) /\
    vel s' = draw_velocities (Z.to_nat (partCount s)) uni (velNormalized s) /\
    partCount s' = partCount s /\ radius s' = radius s /\
    sideLength s' = sideLength s /\
    exists t', partBelonging s' = Some t' /\
               table_ok (Z.to_nat (cubicParts1 s ^ 3)) t'.
Proof.
  intros Hn H1 H2 Ht T.
  assert (P : (0 < cubicParts1 s)%Z)
    by (rewrite H1; now apply floor_cbrt_pos).
  unfold SetParticles. destruct (Z.ltb_spec (partCount s) 0) as [L|_]; [lia|].
  rewrite <- H1, Ht.
  destruct (place_loop_wrapped s rnd P H2 (Z.to_nat (partCount s)) 0
              (repeat vzero (Z.to_nat (partCount s))) t)
    as (p' & t' & E & Lp & T' & In_ & _); [now rewrite repeat_length|exact T|].
  rewrite E. cbn [bind fst snd]. eexists. split; [reflexivity|].
  cbn [pos vel partCount radius sideLength partBelonging].
  rewrite repeat_length in Lp.
  split; [exact Lp|]. split; [intros i Hi; apply In_; lia|].
  repeat (split; [reflexivity|]). now exists t'.
Qed.

(** X21.  On an object that has its table, [SetParticles] returns for every
    positive particle count, a cube or not, when [cubicParts1] is what line
    27 computes: particle [i] is at the lattice point of the cell
    [i % cubicParts1 ** 3] plus its own jitter, the velocities are the draws
    scaled by [velNormalized], and the configuration is unchanged. *)
Theorem SetParticles_places_all (s : Sim) (rnd uni : nat -> Q) (t : table) :
  (0 < partCount s < count_bound)%Z ->
  cubicParts1 s = floor_cbrt (partCount s) ->
  cubicParts2 s = (cubicParts1 s ^ 2)%Z ->
  partBelonging s = Some t ->
  table_ok (Z.to_nat (cubicParts1 s ^ 3)) t ->
  exists s',
    SetParticles s rnd uni = Done s' /\
    length (pos s') = Z.to_nat (partCount s) /\
    (forall i, (i < Z.to_nat (partCount s))%nat ->
               row (pos s') i = spawn s rnd i) /\
    vel s' = draw_velocities (Z.to_nat (partCount s)) uni (velNormalized s) /\
    partCount s' = partCount s /\ radius s' = radius s /\
    sideLength s' = sideLength s /\
    exists t', partBelonging s' = Some t' /\
               table_ok (Z.to_nat (cubicParts1 s ^ 3)) t'.
Proof.
  intros [Hn _] H1 H2 Ht T. now apply (SetParticles_wrapped s rnd uni t).
Qed.

Lemma sixty_four_ready :
  (0 < partCount sixty_four < count_bound)%Z /\
  cubicParts1 sixty_four = floor_cbrt (partCount sixty_four) /\
  cubicParts2 sixty_four = (cubicParts1 sixty_four ^ 2)%Z /\
  partBelonging sixty_four = Some (repeat (repeat 0 7) 27) /\
  table_ok (Z.to_nat (cubicParts1 sixty_four ^ 3)) (repeat (repeat 0 7) 27).
Proof.
  split; [split; reflexivity|]. split; [reflexivity|]. split; [reflexivity|].
  split; [reflexivity|]. split; [simpl; lia|repeat constructor].
Defined.

Lemma SetParticles_places_all_witness :
  ((0 < partCount sixty_four < count_bound)%Z /\
   cubicParts1 sixty_four = floor_cbrt (partCount sixty_four) /\
   cubicParts2 sixty_four = (cubicParts1 sixty_four ^ 2)%Z /\
   partBelonging sixty_four = Some (repeat (repeat 0 7) 27) /\
   table_ok (Z.to_nat (cubicParts1 sixty_four ^ 3))
            (repeat (repeat 0 7) 27)) /\
  exists s',
    SetParticles sixty_four half_draws zero_draws = Done s' /\
    length (pos s') = Z.to_nat (partCount sixty_four) /\
    (forall i, (i < Z.to_nat (partCount sixty_four))%nat ->
               row (pos s') i = spawn sixty_four half_draws i) /\
    vel s' = draw_velocities (Z.to_nat (partCount sixty_four)) zero_draws
                             (velNormalized sixty_four) /\
    partCount s' = partCount sixty_four /\ radius s' = radius sixty_four /\
    sideLength s' = sideLength sixty_four /\
    exists t', partBelonging s' = Some t' /\
               table_ok (Z.to_nat (cubicParts1 sixty_four ^ 3)) t'.
Proof.
  split; [exact sixty_four_ready|].
  destruct sixty_four_ready as (A & B & C & D & E).
  exact (SetParticles_places_all sixty_four half_draws zero_draws _ A B C D E).
Defined.

Lemma jitter_unit (s : Sim) (rnd : nat -> Q) (i k : nat) :
  0 < radius s -> unit_draws rnd ->
  0 <= jitter s rnd i k < radius s * 0.5.
Proof.
  intros Hr Hd. unfold jitter. destruct (Hd (3 * i + k)%nat). split; nra.
Qed.

(** X22.  Particles beyond the grid are spawned on top of others.  Two
    particles that line 79 sends to the same cell differ by their jitter
    alone, less than half a radius on each axis, so that the first detection
    finds them as a colliding pair.  With 64 particles the grid has 27
    cells, and particle 27 is spawned on particle 0. *)
Theorem aliased_particles_collide
  (s : Sim) (rnd uni : nat -> Q) (t : table) (i j : nat) :
  (0 < partCount s < count_bound)%Z ->
  cubicParts1 s = floor_cbrt (partCount s) ->
  cubicParts2 s = (cubicParts1 s ^ 2)%Z ->
  partBelonging s = Some t ->
  table_ok (Z.to_nat (cubicParts1 s ^ 3)) t ->
  0 < radius s -> unit_draws rnd ->
  (i < j < Z.to_nat (partCount s))%nat -> cell_of s i = cell_of s j ->
  exists s',
    SetParticles s rnd uni = Done s' /\
    In (i, j) (colliding_pairs (radius s') (pos s')).
Proof.
  intros [Hn _] H1 H2 Ht T Hr Hd Hij Hc.
  destruct (SetParticles_wrapped s rnd uni t Hn H1 H2 Ht T)
    as (s' & E & L & R & _ & _ & Er & _).
  exists s'. split; [exact E|].
  apply colliding_pairs_In. rewrite L. split; [exact Hij|].
  rewrite (R i), (R j), Er by lia. unfold spawn. rewrite Hc.
  pose proof (jitter_unit s rnd i 0 Hr Hd).
  pose proof (jitter_unit s rnd i 1 Hr Hd).
  pose proof (jitter_unit s rnd i 2 Hr Hd).
  pose proof (jitter_unit s rnd j 0 Hr Hd).
  pose proof (jitter_unit s rnd j 1 Hr Hd).
  pose proof (jitter_unit s rnd j 2 Hr Hd).
  generalize dependent (jitter s rnd i 0). intros a0 A0.
  generalize dependent (jitter s rnd i 1). intros a1 A1.
  generalize dependent (jitter s rnd i 2). intros a2 A2.
  generalize dependent (jitter s rnd j 0). intros b0 B0.
  generalize dependent (jitter s rnd j 1). intros b1 B1.
  generalize dependent (jitter s rnd j 2). intros b2 B2.
  set (d := lattice (radius s * 5) (sideLength s - radius s * 5)
                    (cubicParts1 s)).
  generalize (d (cell_of s j mod cubicParts1 s)%Z),
    (d ((cell_of s j mod cubicParts1 s ^ 2) / cubicParts1 s)%Z),
    (d (cell_of s j / cubicParts1 s ^ 2)%Z). intros x y z.
  unfold sqdist, sqrt_lt, vsub, vmap2, Vq.
  cbn [vx vy vz fsub fadd fneg fmul].
  apply andb_true_intro. split; apply Qltb_lt; nra.
Qed.

Lemma aliased_particles_collide_witness :
  ((0 < partCount sixty_four < count_bound)%Z /\
   cubicParts1 sixty_four = floor_cbrt (partCount sixty_four) /\
   cubicParts2 sixty_four = (cubicParts1 sixty_four ^ 2)%Z /\
   partBelonging sixty_four = Some (repeat (repeat 0 7) 27) /\
   table_ok (Z.to_nat (cubicParts1 sixty_four ^ 3))
            (repeat (repeat 0 7) 27)) /\
  0 < radius sixty_four /\ unit_draws half_draws /\
  (0 < 27 < Z.to_nat (partCount sixty_four))%nat /\
  cell_of sixty_four 0 = cell_of sixty_four 27 /\
  exists s',
    SetParticles sixty_four half_draws zero_draws = Done s' /\
    In (0, 27)%nat (colliding_pairs (radius s') (pos s')).
Proof.
  split; [exact sixty_four_ready|].
  destruct sixty_four_ready as (A & B & C & D & E).
  assert (R : 0 < radius sixty_four) by reflexivity.
  assert (U : unit_draws half_draws)
    by (intros k; split; [discriminate|reflexivity]).
  assert (I : (0 < 27 < Z.to_nat (partCount sixty_four))%nat) by (simpl; lia).
  assert (K : cell_of sixty_four 0 = cell_of sixty_four 27) by reflexivity.
  split; [exact R|]. split; [exact U|]. split; [exact I|]. split; [exact K|].
  exact (aliased_particles_collide sixty_four half_draws zero_draws _ 0 27
           A B C D E R U I K).
Defined.

Lemma draw_velocities_within (n : nat) (uni : nat -> Q) (c : Q) :
  signed_draws uni -> 0 <= c ->
  Forall (fun u => within c (vx u) /\ within c (vy u) /\ within c (vz u))
         (draw_velocities n uni c).
Proof.
  intros Hd Hc. unfold draw_velocities. apply Forall_map, Forall_forall.
  intros i _. unfold Vq, within. cbn [vx vy vz].
  destruct (Hd (3 * i)%nat), (Hd (3 * i + 1)%nat), (Hd (3 * i + 2)%nat).
  repeat split; nra.
Qed.

(** X23.  No initial velocity component exceeds [velNormalized] in absolute
    value, and there is one velocity for each particle. *)
Theorem initial_velocities_bounded
  (s : Sim) (rnd uni : nat -> Q) (t : table) :
  (0 < partCount s < count_bound)%Z ->
  cubicParts1 s = floor_cbrt (partCount s) ->
  cubicParts2 s = (cubicParts1 s ^ 2)%Z ->
  partBelonging s = Some t ->
  table_ok (Z.to_nat (cubicParts1 s ^ 3)) t ->
  signed_draws uni -> 0 <= velNormalized s ->
  exists s',
    SetParticles s rnd uni = Done s' /\
    length (vel s') = Z.to_nat (partCount s) /\
    Forall (fun u => within (velNormalized s) (vx u) /\
                     within (velNormalized s) (vy u) /\
                     within (velNormalized s) (vz u)) (vel s').
Proof.
  intros [Hn _] H1 H2 Ht T Hd Hv.
  destruct (SetParticles_wrapped s rnd uni t Hn H1 H2 Ht T)
    as (s' & E & _ & _ & V & _).
  exists s'. split; [exact E|]. rewrite V. split.
  - unfold draw_velocities. now rewrite length_map, length_seq.
  - now apply draw_velocities_within.
Qed.

Lemma initial_velocities_bounded_witness :
  ((0 < partCount sixty_four < count_bound)%Z /\
   cubicParts1 sixty_four = floor_cbrt (partCount sixty_four) /\
   cubicParts2 sixty_four = (cubicParts1 sixty_four ^ 2)%Z /\
   partBelonging sixty_four = Some (repeat (repeat 0 7) 27) /\
   table_ok (Z.to_nat (cubicParts1 sixty_four ^ 3))
            (repeat (repeat 0 7) 27)) /\
  signed_draws half_draws /\ 0 <= velNormalized sixty_four /\
  exists s',
    SetParticles sixty_four zero_draws half_draws = Done s' /\
    length (vel s') = Z.to_nat (partCount sixty_four) /\
    Forall (fun u => within (velNormalized sixty_four) (vx u) /\
                     within (velNormalized sixty_four) (vy u) /\
                     within (velNormalized sixty_four) (vz u)) (vel s').
Proof.
  split; [exact sixty_four_ready|].
  destruct sixty_four_ready as (A & B & C & D & E).
  assert (U : signed_draws half_draws)
    by (intros k; split; discriminate).
  assert (V : 0 <= velNormalized sixty_four) by discriminate.
  split; [exact U|]. split; [exact V|].
  exact (initial_velocities_bounded sixty_four zero_draws half_draws _
           A B C D E U V).
Defined.

(** With no particle [SetParticles] returns with empty arrays, whether the
    table exists or not. *)
Theorem SetParticles_nobody (s : Sim) (rnd uni : nat -> Q) :
  partCount s = 0%Z -> SetParticles s rnd uni = Done (set_arrays s [] []).
Proof.
  intros H. unfold SetParticles, set_arrays. rewrite H. reflexivity.
Qed.

Lemma SetParticles_nobody_witness :
  partCount nobody = 0%Z /\
  SetParticles nobody zero_draws zero_draws = Done (set_arrays nobody [] []).
Proof.
  assert (H : partCount nobody = 0%Z) by reflexivity.
  split; [exact H|]. exact (SetParticles_nobody nobody zero_draws zero_draws H).
Defined.

(** X24.  What the constructor does with each input: a negative count is
    refused by the allocation; a radius whose cube overflows stops at line
    33 and a mass of zero at line 35, both with the arrays still zero; with
    no particle the placement returns and line 39 raises; with a positive
    count, line 83 raises once particle 0 has been placed, every other row
    and every velocity being still zero. *)
Theorem init_outcome (n : Z) (m r v T : Q) (rnd uni : nat -> Q) :
  (n < count_bound)%Z ->
  __init__ n m r v T rnd uni
  = if (n <? 0)%Z then Raised ValueError None
    else
      let zeros := repeat vzero (Z.to_nat n) in
      if pow_overflows (r * r * r)
      then Raised OverflowError (Some (zeros, zeros))
      else if Qeq_bool m 0 then Raised ZeroDivisionError (Some (zeros, zeros))
      else if (n =? 0)%Z then Raised TypeError (Some ([], []))
      else
        let s := mkSim n m r v T zeros zeros (floor_cbrt n) (floor_cbrt n ^ 2)
                       (Qcbrt v) (Qsqrt (thermal_radicand T m)) None in
        Raised AttributeError (Some (upd 0 (spawn s rnd 0) zeros, zeros)).
Proof.
  intros _.
  unfold __init__. destruct (Z.ltb_spec n 0) as [L|L]; [reflexivity|].
  cbv zeta. destruct (pow_overflows (r * r * r)); [reflexivity|].
  destruct (Qeq_bool m 0); [reflexivity|].
  destruct (Z.eqb_spec n 0) as [->|N]; [reflexivity|].
  destruct (Z.to_nat n) as [|k] eqn:K; [lia|].
  set (zeros := repeat vzero (S k)).
  set (s := mkSim n m r v T zeros zeros (floor_cbrt n) (floor_cbrt n ^ 2)
                  (Qcbrt v) (Qsqrt (thermal_radicand T m)) None).
  assert (P : (0 < cubicParts1 s)%Z) by (apply floor_cbrt_pos; lia).
  unfold SetParticles.
  change (partCount s) with n. change (partBelonging s) with (@None table).
  destruct (Z.ltb_spec n 0) as [L'|_]; [lia|].
  rewrite K. cbn [seq place_loop].
  change (floor_cbrt n) with (cubicParts1 s).
  rewrite (place_reaches_table s rnd P eq_refl). reflexivity.
Qed.

Lemma init_outcome_witness :
  (64 < count_bound)%Z /\
  __init__ 64 1 1 64000 300 half_draws zero_draws
  = if (64 <? 0)%Z then Raised ValueError None
    else
      let zeros := repeat vzero (Z.to_nat 64) in
      if pow_overflows (1 * 1 * 1)
      then Raised OverflowError (Some (zeros, zeros))
      else if Qeq_bool 1 0 then Raised ZeroDivisionError (Some (zeros, zeros))
      else if (64 =? 0)%Z then Raised TypeError (Some ([], []))
      else
        let s := mkSim 64 1 1 64000 300 zeros zeros (floor_cbrt 64)
                       (floor_cbrt 64 ^ 2) (Qcbrt 64000)
                       (Qsqrt (thermal_radicand 300 1)) None in
        Raised AttributeError
               (Some (upd 0 (spawn s half_draws 0) zeros, zeros)).
Proof.
  assert (B : (64 < count_bound)%Z) by reflexivity.
  split; [exact B|].
  exact (init_outcome 64 1 1 64000 300 half_draws zero_draws B).
Defined.

(** ** The free flight *)

(** X20.  The free flight of [-dt] undoes the free flight of [dt]: with the
    velocities unchanged, the particles are back where they were. *)
Theorem advance_back (dt : Q) (p v : list vec) :
  length v = length p -> Forall vfin p -> Forall vfin v ->
  Forall2 veq (advance (- dt) (advance dt p v) v) p.
Proof.
  intros L Fp. revert v L. induction Fp as [|x p Fx Fp IH]; intros v L Fv.
  - destruct v; [constructor|discriminate].
  - destruct v as [|u v]; [discriminate|]. inversion Fv as [|? ? Fu Fv']; subst.
    cbn [advance]. constructor; [|apply IH; [now injection L|exact Fv']].
    fin_vec Fx. fin_vec Fu. unfold veq, vadd, vtimes, vmap, vmap2.
    cbn [vx vy vz fadd fmul feq]. repeat split; ring.
Qed.

Lemma advance_back_witness :
  length (snd two_pairs) = length (fst two_pairs) /\
  Forall vfin (fst two_pairs) /\ Forall vfin (snd two_pairs) /\
  Forall2 veq (advance (- 3) (advance 3 (fst two_pairs) (snd two_pairs))
                       (snd two_pairs))
          (fst two_pairs).
Proof.
  assert (L : length (snd two_pairs) = length (fst two_pairs)) by reflexivity.
  assert (Fp : Forall vfin (fst two_pairs)) by (repeat constructor).
  assert (Fv : Forall vfin (snd two_pairs)) by (repeat constructor).
  split; [exact L|]. split; [exact Fp|]. split; [exact Fv|].
  exact (advance_back 3 (fst two_pairs) (snd two_pairs) L Fp Fv).
Defined.
